(** * SouzaFrameTransf: corotational frame transformation

    A shallow embedding of
    [SRC/coordTransformation/Frame/SouzaFrameTransf.tpp] (template instance
    [nn = 2], [ndf = 6]) and the properties of its life cycle:
    [initialize], [update], [commit], [revertToLastCommit], [revertToStart],
    [getCopy], the force [push] and the sensitivity methods.

    The transformation object is a record; its methods run in a small
    reader/state/output monad: they read the nodes of the domain through the
    node pointers the object holds, mutate the object, and write diagnostics
    to [opserr].  Dereferencing a null node pointer has no defined result.

    The code computes on C++ [double]s.  The embedding is generic in the
    scalar type (class [Scalar]); [binary64] instantiates it with IEEE
    binary64 numbers, the type the code runs on.  The classes the file
    includes but does not define (Vector3D, Matrix3D, Versor, the Crisfield
    isometry, FrameTransform::Orient, the index enum of the class
    declaration) are the fields of the class [Externals]. *)

From Stdlib Require Import ZArith String Floats.
From stdpp Require Import base list.

Local Open Scope string_scope.
Local Open Scope list_scope.

(** ** Scalars *)

(** The arithmetic the code uses on [double]: literals [0.0] and [1.0], the
    four operations and the comparison [==]. *)
Class Scalar (D : Type) := {
  d0 : D;
  d1 : D;
  dadd : D → D → D;
  dsub : D → D → D;
  dmul : D → D → D;
  ddiv : D → D → D;
  deqb : D → D → bool
}.

Declare Scope scalar_scope.
Delimit Scope scalar_scope with D.
Infix "+" := dadd : scalar_scope.
Infix "-" := dsub : scalar_scope.
Infix "*" := dmul : scalar_scope.
Infix "/" := ddiv : scalar_scope.
Infix "==" := deqb (at level 70, no associativity) : scalar_scope.

(** C++ [x != y] on doubles is the negation of [x == y]. *)
Definition dneb {D} `{Scalar D} (x y : D) : bool := negb (x == y)%D.
Infix "!=" := dneb (at level 70, no associativity) : scalar_scope.

(** Exact integer arithmetic, for algebraic identities that rounding
    breaks. *)
#[export] Instance exactZ : Scalar Z := {|
  d0 := 0%Z;
  d1 := 1%Z;
  dadd := Z.add;
  dsub := Z.sub;
  dmul := Z.mul;
  ddiv := Z.div;
  deqb := Z.eqb
|}.

(** IEEE binary64, the code's [double]. *)
#[export] Instance binary64 : Scalar float := {|
  d0 := 0%float;
  d1 := 1%float;
  dadd := PrimFloat.add;
  dsub := PrimFloat.sub;
  dmul := PrimFloat.mul;
  ddiv := PrimFloat.div;
  deqb := PrimFloat.eqb
|}.

(** The laws of exact arithmetic that the transposed product needs. *)
Class ScalarLaws (D : Type) `{Scalar D} : Prop := {
  dadd_assoc : ∀ x y z : D, (x + (y + z))%D = ((x + y) + z)%D;
  dadd_0_l : ∀ x : D, (d0 + x)%D = x;
  dmul_1_r : ∀ x : D, (x * d1)%D = x
}.

(** The integers obey them. *)
#[global] Instance exactZ_laws : ScalarLaws Z.
Proof. split; intros; cbn; lia. Qed.

#[export] Instance scalar_inhabited {D} `{Scalar D} : Inhabited D := populate d0.

(** ** Fixed-size containers *)

(** [Vector3D]: three doubles, read and written by index. *)
Record Vector3D (D : Type) := V3 { v0 : D; v1 : D; v2 : D }.
Arguments V3 {D} _ _ _.
Arguments v0 {D} _.
Arguments v1 {D} _.
Arguments v2 {D} _.

Definition v3_get {D} (v : Vector3D D) (k : nat) : D :=
  match k with
  | O => v0 v
  | S O => v1 v
  | _ => v2 v
  end.

Definition v3_set {D} (k : nat) (x : D) (v : Vector3D D) : Vector3D D :=
  match k with
  | O => V3 x (v1 v) (v2 v)
  | S O => V3 (v0 v) x (v2 v)
  | _ => V3 (v0 v) (v1 v) x
  end.

(** [Vector3D::zero()]. *)
Definition v3_zero {D} `{Scalar D} : Vector3D D := V3 d0 d0 d0.

(** Component-wise [operator-] of Vector3D. *)
Definition v3_sub {D} `{Scalar D} (a b : Vector3D D) : Vector3D D :=
  V3 (v0 a - v0 b)%D (v1 a - v1 b)%D (v2 a - v2 b)%D.

(** [Matrix3D], by rows. *)
Record Matrix3D (D : Type) := M3 { r0 : Vector3D D; r1 : Vector3D D; r2 : Vector3D D }.
Arguments M3 {D} _ _ _.
Arguments r0 {D} _.
Arguments r1 {D} _.
Arguments r2 {D} _.

(** A C array of [nn = 2] entries ([nodes], [Q_pres], [Q_past], [vr]). *)
Definition Arr2 (A : Type) : Type := (A * A)%type.

Definition arr_get {A} (a : Arr2 A) (i : nat) : A :=
  match i with
  | O => fst a
  | _ => snd a
  end.

Definition arr_set {A} (i : nat) (x : A) (a : Arr2 A) : Arr2 A :=
  match i with
  | O => (x, snd a)
  | _ => (fst a, x)
  end.

(** [VectorND<N>] and OpenSees' [Vector]: a list of doubles, [v(i)] is the
    total lookup [v !!! i] and [v(i) = x] is [<[i:=x]> v].
    [MatrixND<12,12>]: the list of its rows. *)
Abbreviation VectorND D := (list D) (only parsing).
Abbreviation MatrixND D := (list (list D)) (only parsing).

Definition mat_at {D} `{Scalar D} (T : MatrixND D) (r c : nat) : D := (T !!! r) !!! c.

(** Template parameters of the instance the elements use. *)
Definition nn : nat := 2.
Definition ndf : nat := 6.

(** [VectorND<nn*ndf>::zero()], also the value of [VectorND<nn*ndf> pg{}]. *)
Definition vec_zero {D} `{Scalar D} (n : nat) : VectorND D := replicate n d0.

(** ** Nodes and the domain *)

(** What the transformation reads of a node. *)
Record Node (D : Type) := mkNode {
  Crds : Vector3D D;
  Disp : VectorND D;
  TrialDisp : VectorND D;
  CrdsSensitivity : Z
}.
Arguments mkNode {D} _ _ _ _.
Arguments Crds {D} _.
Arguments Disp {D} _.
Arguments TrialDisp {D} _.
Arguments CrdsSensitivity {D} _.

(** A [Node*]: [None] is [nullptr], [Some a] the address of a node of the
    domain.  The domain owns the nodes and has one at every address: a
    pointer is null or valid. *)
Definition NodePtr : Type := option nat.
Definition Domain (D : Type) : Type := nat → Node D.

(** ** The classes the file includes but does not define *)

(** Their operations, as the transformation calls them.  Nothing is assumed
    about what they compute.
    - Vector3D.h: [norm], [dot];
    - Matrix3D.h: [operator^], the transposed product [e^M];
    - GroupSO3.h: [Versor] with [from_matrix], [from_vector] and the
      Hamilton product [operator*], [MatrixFromVersor], [LogC90];
    - FrameTransform.h: the static [Orient(dx, vz, R0)], which returns an
      error code and writes [R0];
    - Isometry/CrisfieldIsometry.h: the member [crs];
    - SouzaFrameTransf.h: the index enum [inx], [jnx] (axial components of
      the node-I and node-J blocks) and [imx], [jmx] (first rotational
      component of each block). *)
Class Externals (D : Type) `{Scalar D} := {
  norm : Vector3D D → D;
  dot : Vector3D D → Vector3D D → D;
  mat_tmul : Matrix3D D → Matrix3D D → Matrix3D D;
  Versor : Type;
  from_matrix : Matrix3D D → Versor;
  from_vector : Vector3D D → Versor;
  hamilton : Versor → Versor → Versor;
  MatrixFromVersor : Versor → Matrix3D D;
  LogC90 : Matrix3D D → Vector3D D;
  Orient : Vector3D D → Vector3D D → Matrix3D D → Z * Matrix3D D;
  Isometry : Type;
  crs_make : Vector3D D → Isometry;
  crs_initialize : Isometry → Arr2 NodePtr → Domain D → Isometry;
  crs_update : Isometry → Matrix3D D → Matrix3D D → Vector3D D →
               Arr2 NodePtr → Domain D → Isometry;
  crs_getRotation : Isometry → Matrix3D D;
  crs_compute_tangent : Isometry → VectorND D → MatrixND D;
  inx : nat;
  jnx : nat;
  imx : nat;
  jmx : nat
}.

(** The index enum addresses a 12-component vector, and the two axial
    components are different entries. *)
Definition layout_ok {D} `{Ext : Externals D} : Prop :=
  (inx < nn * ndf)%nat ∧ (jnx < nn * ndf)%nat ∧ inx ≠ jnx.

Section Transformation.
Context {D : Type} `{Ext : Externals D}.

(** ** The object *)

(** The data members of [SouzaFrameTransf<nn,ndf>].  [offsets] and the two
    initial-displacement arrays are heap arrays the object owns ([None] is
    [nullptr]); [nodes] are pointers to nodes the domain owns. *)
Record SouzaFrameTransf := mkTransf {
  tag : Z;
  vz : Vector3D D;
  offsets : option (Arr2 (Vector3D D));
  nodes : Arr2 NodePtr;
  xAxis : Vector3D D;
  dX : Vector3D D;
  L : D;
  Ln : D;
  R0 : Matrix3D D;
  nodeIInitialDisp : option (list D);
  nodeJInitialDisp : option (list D);
  initialDispChecked : bool;
  crs : Isometry;
  alphaI : Vector3D D;
  alphaJ : Vector3D D;
  Q_pres : Arr2 Versor;
  Q_past : Arr2 Versor;
  ul : VectorND D;
  ulpr : VectorND D;
  ulcommit : VectorND D;
  vr : Arr2 (Vector3D D);
  T : MatrixND D
}.

(** Assignment to one data member. *)
Definition set_nodes x (s : SouzaFrameTransf) : SouzaFrameTransf :=
  {| tag := tag s; vz := vz s; offsets := offsets s; nodes := x; xAxis := xAxis s;
     dX := dX s; L := L s; Ln := Ln s; R0 := R0 s; nodeIInitialDisp := nodeIInitialDisp s;
     nodeJInitialDisp := nodeJInitialDisp s; initialDispChecked := initialDispChecked s;
     crs := crs s; alphaI := alphaI s; alphaJ := alphaJ s; Q_pres := Q_pres s;
     Q_past := Q_past s; ul := ul s; ulpr := ulpr s; ulcommit := ulcommit s; vr := vr s;
     T := T s |}.

Definition set_xAxis x (s : SouzaFrameTransf) : SouzaFrameTransf :=
  {| tag := tag s; vz := vz s; offsets := offsets s; nodes := nodes s; xAxis := x;
     dX := dX s; L := L s; Ln := Ln s; R0 := R0 s; nodeIInitialDisp := nodeIInitialDisp s;
     nodeJInitialDisp := nodeJInitialDisp s; initialDispChecked := initialDispChecked s;
     crs := crs s; alphaI := alphaI s; alphaJ := alphaJ s; Q_pres := Q_pres s;
     Q_past := Q_past s; ul := ul s; ulpr := ulpr s; ulcommit := ulcommit s; vr := vr s;
     T := T s |}.

Definition set_dX x (s : SouzaFrameTransf) : SouzaFrameTransf :=
  {| tag := tag s; vz := vz s; offsets := offsets s; nodes := nodes s; xAxis := xAxis s;
     dX := x; L := L s; Ln := Ln s; R0 := R0 s; nodeIInitialDisp := nodeIInitialDisp s;
     nodeJInitialDisp := nodeJInitialDisp s; initialDispChecked := initialDispChecked s;
     crs := crs s; alphaI := alphaI s; alphaJ := alphaJ s; Q_pres := Q_pres s;
     Q_past := Q_past s; ul := ul s; ulpr := ulpr s; ulcommit := ulcommit s; vr := vr s;
     T := T s |}.

Definition set_L x (s : SouzaFrameTransf) : SouzaFrameTransf :=
  {| tag := tag s; vz := vz s; offsets := offsets s; nodes := nodes s; xAxis := xAxis s;
     dX := dX s; L := x; Ln := Ln s; R0 := R0 s; nodeIInitialDisp := nodeIInitialDisp s;
     nodeJInitialDisp := nodeJInitialDisp s; initialDispChecked := initialDispChecked s;
     crs := crs s; alphaI := alphaI s; alphaJ := alphaJ s; Q_pres := Q_pres s;
     Q_past := Q_past s; ul := ul s; ulpr := ulpr s; ulcommit := ulcommit s; vr := vr s;
     T := T s |}.

Definition set_Ln x (s : SouzaFrameTransf) : SouzaFrameTransf :=
  {| tag := tag s; vz := vz s; offsets := offsets s; nodes := nodes s; xAxis := xAxis s;
     dX := dX s; L := L s; Ln := x; R0 := R0 s; nodeIInitialDisp := nodeIInitialDisp s;
     nodeJInitialDisp := nodeJInitialDisp s; initialDispChecked := initialDispChecked s;
     crs := crs s; alphaI := alphaI s; alphaJ := alphaJ s; Q_pres := Q_pres s;
     Q_past := Q_past s; ul := ul s; ulpr := ulpr s; ulcommit := ulcommit s; vr := vr s;
     T := T s |}.

Definition set_R0 x (s : SouzaFrameTransf) : SouzaFrameTransf :=
  {| tag := tag s; vz := vz s; offsets := offsets s; nodes := nodes s; xAxis := xAxis s;
     dX := dX s; L := L s; Ln := Ln s; R0 := x; nodeIInitialDisp := nodeIInitialDisp s;
     nodeJInitialDisp := nodeJInitialDisp s; initialDispChecked := initialDispChecked s;
     crs := crs s; alphaI := alphaI s; alphaJ := alphaJ s; Q_pres := Q_pres s;
     Q_past := Q_past s; ul := ul s; ulpr := ulpr s; ulcommit := ulcommit s; vr := vr s;
     T := T s |}.

Definition set_nodeIInitialDisp x (s : SouzaFrameTransf) : SouzaFrameTransf :=
  {| tag := tag s; vz := vz s; offsets := offsets s; nodes := nodes s; xAxis := xAxis s;
     dX := dX s; L := L s; Ln := Ln s; R0 := R0 s; nodeIInitialDisp := x;
     nodeJInitialDisp := nodeJInitialDisp s; initialDispChecked := initialDispChecked s;
     crs := crs s; alphaI := alphaI s; alphaJ := alphaJ s; Q_pres := Q_pres s;
     Q_past := Q_past s; ul := ul s; ulpr := ulpr s; ulcommit := ulcommit s; vr := vr s;
     T := T s |}.

Definition set_nodeJInitialDisp x (s : SouzaFrameTransf) : SouzaFrameTransf :=
  {| tag := tag s; vz := vz s; offsets := offsets s; nodes := nodes s; xAxis := xAxis s;
     dX := dX s; L := L s; Ln := Ln s; R0 := R0 s; nodeIInitialDisp := nodeIInitialDisp s;
     nodeJInitialDisp := x; initialDispChecked := initialDispChecked s; crs := crs s;
     alphaI := alphaI s; alphaJ := alphaJ s; Q_pres := Q_pres s; Q_past := Q_past s;
     ul := ul s; ulpr := ulpr s; ulcommit := ulcommit s; vr := vr s; T := T s |}.

Definition set_initialDispChecked x (s : SouzaFrameTransf) : SouzaFrameTransf :=
  {| tag := tag s; vz := vz s; offsets := offsets s; nodes := nodes s; xAxis := xAxis s;
     dX := dX s; L := L s; Ln := Ln s; R0 := R0 s; nodeIInitialDisp := nodeIInitialDisp s;
     nodeJInitialDisp := nodeJInitialDisp s; initialDispChecked := x; crs := crs s;
     alphaI := alphaI s; alphaJ := alphaJ s; Q_pres := Q_pres s; Q_past := Q_past s;
     ul := ul s; ulpr := ulpr s; ulcommit := ulcommit s; vr := vr s; T := T s |}.

Definition set_crs x (s : SouzaFrameTransf) : SouzaFrameTransf :=
  {| tag := tag s; vz := vz s; offsets := offsets s; nodes := nodes s; xAxis := xAxis s;
     dX := dX s; L := L s; Ln := Ln s; R0 := R0 s; nodeIInitialDisp := nodeIInitialDisp s;
     nodeJInitialDisp := nodeJInitialDisp s; initialDispChecked := initialDispChecked s;
     crs := x; alphaI := alphaI s; alphaJ := alphaJ s; Q_pres := Q_pres s;
     Q_past := Q_past s; ul := ul s; ulpr := ulpr s; ulcommit := ulcommit s; vr := vr s;
     T := T s |}.

Definition set_alphaI x (s : SouzaFrameTransf) : SouzaFrameTransf :=
  {| tag := tag s; vz := vz s; offsets := offsets s; nodes := nodes s; xAxis := xAxis s;
     dX := dX s; L := L s; Ln := Ln s; R0 := R0 s; nodeIInitialDisp := nodeIInitialDisp s;
     nodeJInitialDisp := nodeJInitialDisp s; initialDispChecked := initialDispChecked s;
     crs := crs s; alphaI := x; alphaJ := alphaJ s; Q_pres := Q_pres s; Q_past := Q_past s;
     ul := ul s; ulpr := ulpr s; ulcommit := ulcommit s; vr := vr s; T := T s |}.

Definition set_alphaJ x (s : SouzaFrameTransf) : SouzaFrameTransf :=
  {| tag := tag s; vz := vz s; offsets := offsets s; nodes := nodes s; xAxis := xAxis s;
     dX := dX s; L := L s; Ln := Ln s; R0 := R0 s; nodeIInitialDisp := nodeIInitialDisp s;
     nodeJInitialDisp := nodeJInitialDisp s; initialDispChecked := initialDispChecked s;
     crs := crs s; alphaI := alphaI s; alphaJ := x; Q_pres := Q_pres s; Q_past := Q_past s;
     ul := ul s; ulpr := ulpr s; ulcommit := ulcommit s; vr := vr s; T := T s |}.

Definition set_Q_pres x (s : SouzaFrameTransf) : SouzaFrameTransf :=
  {| tag := tag s; vz := vz s; offsets := offsets s; nodes := nodes s; xAxis := xAxis s;
     dX := dX s; L := L s; Ln := Ln s; R0 := R0 s; nodeIInitialDisp := nodeIInitialDisp s;
     nodeJInitialDisp := nodeJInitialDisp s; initialDispChecked := initialDispChecked s;
     crs := crs s; alphaI := alphaI s; alphaJ := alphaJ s; Q_pres := x; Q_past := Q_past s;
     ul := ul s; ulpr := ulpr s; ulcommit := ulcommit s; vr := vr s; T := T s |}.

Definition set_Q_past x (s : SouzaFrameTransf) : SouzaFrameTransf :=
  {| tag := tag s; vz := vz s; offsets := offsets s; nodes := nodes s; xAxis := xAxis s;
     dX := dX s; L := L s; Ln := Ln s; R0 := R0 s; nodeIInitialDisp := nodeIInitialDisp s;
     nodeJInitialDisp := nodeJInitialDisp s; initialDispChecked := initialDispChecked s;
     crs := crs s; alphaI := alphaI s; alphaJ := alphaJ s; Q_pres := Q_pres s; Q_past := x;
     ul := ul s; ulpr := ulpr s; ulcommit := ulcommit s; vr := vr s; T := T s |}.

Definition set_ul x (s : SouzaFrameTransf) : SouzaFrameTransf :=
  {| tag := tag s; vz := vz s; offsets := offsets s; nodes := nodes s; xAxis := xAxis s;
     dX := dX s; L := L s; Ln := Ln s; R0 := R0 s; nodeIInitialDisp := nodeIInitialDisp s;
     nodeJInitialDisp := nodeJInitialDisp s; initialDispChecked := initialDispChecked s;
     crs := crs s; alphaI := alphaI s; alphaJ := alphaJ s; Q_pres := Q_pres s;
     Q_past := Q_past s; ul := x; ulpr := ulpr s; ulcommit := ulcommit s; vr := vr s;
     T := T s |}.

Definition set_ulpr x (s : SouzaFrameTransf) : SouzaFrameTransf :=
  {| tag := tag s; vz := vz s; offsets := offsets s; nodes := nodes s; xAxis := xAxis s;
     dX := dX s; L := L s; Ln := Ln s; R0 := R0 s; nodeIInitialDisp := nodeIInitialDisp s;
     nodeJInitialDisp := nodeJInitialDisp s; initialDispChecked := initialDispChecked s;
     crs := crs s; alphaI := alphaI s; alphaJ := alphaJ s; Q_pres := Q_pres s;
     Q_past := Q_past s; ul := ul s; ulpr := x; ulcommit := ulcommit s; vr := vr s;
     T := T s |}.

Definition set_ulcommit x (s : SouzaFrameTransf) : SouzaFrameTransf :=
  {| tag := tag s; vz := vz s; offsets := offsets s; nodes := nodes s; xAxis := xAxis s;
     dX := dX s; L := L s; Ln := Ln s; R0 := R0 s; nodeIInitialDisp := nodeIInitialDisp s;
     nodeJInitialDisp := nodeJInitialDisp s; initialDispChecked := initialDispChecked s;
     crs := crs s; alphaI := alphaI s; alphaJ := alphaJ s; Q_pres := Q_pres s;
     Q_past := Q_past s; ul := ul s; ulpr := ulpr s; ulcommit := x; vr := vr s; T := T s |}.

Definition set_vr x (s : SouzaFrameTransf) : SouzaFrameTransf :=
  {| tag := tag s; vz := vz s; offsets := offsets s; nodes := nodes s; xAxis := xAxis s;
     dX := dX s; L := L s; Ln := Ln s; R0 := R0 s; nodeIInitialDisp := nodeIInitialDisp s;
     nodeJInitialDisp := nodeJInitialDisp s; initialDispChecked := initialDispChecked s;
     crs := crs s; alphaI := alphaI s; alphaJ := alphaJ s; Q_pres := Q_pres s;
     Q_past := Q_past s; ul := ul s; ulpr := ulpr s; ulcommit := ulcommit s; vr := x;
     T := T s |}.

Definition set_T x (s : SouzaFrameTransf) : SouzaFrameTransf :=
  {| tag := tag s; vz := vz s; offsets := offsets s; nodes := nodes s; xAxis := xAxis s;
     dX := dX s; L := L s; Ln := Ln s; R0 := R0 s; nodeIInitialDisp := nodeIInitialDisp s;
     nodeJInitialDisp := nodeJInitialDisp s; initialDispChecked := initialDispChecked s;
     crs := crs s; alphaI := alphaI s; alphaJ := alphaJ s; Q_pres := Q_pres s;
     Q_past := Q_past s; ul := ul s; ulpr := ulpr s; ulcommit := ulcommit s; vr := vr s;
     T := x |}.

(** ** Methods: a reader / state / output monad *)

(** A method reads the domain, transforms the object and appends to
    [opserr]; [None] is the undefined result of dereferencing [nullptr] or
    of indexing a [Vector3D] out of range. *)
Definition M (A : Type) : Type :=
  Domain D → SouzaFrameTransf → option (A * SouzaFrameTransf * list string).

#[global] Instance M_ret : MRet M := λ A a _ s, Some (a, s, []).

#[global] Instance M_bind : MBind M := λ A B k m dom s,
  match m dom s with
  | Some (a, s1, o1) =>
      match k a dom s1 with
      | Some (b, s2, o2) => Some (b, s2, o1 ++ o2)
      | None => None
      end
  | None => None
  end.

Definition get_this : M SouzaFrameTransf := λ _ s, Some (s, s, []).

Definition get_domain : M (Domain D) := λ dom s, Some (dom, s, []).

(** One assignment to a data member. *)
Definition assign (f : SouzaFrameTransf → SouzaFrameTransf) : M unit :=
  λ _ s, Some (tt, f s, []).

(** [opserr << msg]; one entry per statement, line breaks left out. *)
Definition opserr (msg : string) : M unit := λ _ s, Some (tt, s, [msg]).

Definition undefined {A} : M A := λ _ _, None.

(** [*p] for a node pointer. *)
Definition deref (p : NodePtr) : M (Node D) :=
  λ dom s,
    match p with
    | Some a => Some (dom a, s, [])
    | None => None
    end.

(** [for (k in ks) body(k)], with the loop's local variables in [a]. *)
Fixpoint for_each {A} (ks : list nat) (body : nat → A → M A) (a : A) : M A :=
  match ks with
  | [] => mret a
  | k :: ks' => a' ← body k a; for_each ks' body a'
  end.

(** Status codes of [initialize] and [update]. *)
Definition OK : Z := 0%Z.
Definition InvalidNodeError : Z := (-1)%Z.
Definition DegenerateGeometryError : Z := (-2)%Z.

(** *** Constructor and copy *)

(** The constructor's initialiser list and body.  Members it does not name
    ([nodes], [xAxis], [dX], [R0], [Q_pres], [Q_past], [ul], [ulpr],
    [ulcommit], [vr], [T]) are default-initialised; [blank] holds whatever
    that leaves in them.  [offsets] is a fresh array holding a copy of
    [*offset], or [nullptr]. *)
Definition construct (blank : SouzaFrameTransf) (tag' : Z) (vz' : Vector3D D)
    (offset : option (Arr2 (Vector3D D))) : SouzaFrameTransf :=
  {| tag := tag'; vz := vz';
     offsets := match offset with
                | Some o => Some o
                | None => None
                end;
     nodes := nodes blank; xAxis := xAxis blank; dX := dX blank;
     L := d0; Ln := d0; R0 := R0 blank;
     nodeIInitialDisp := None; nodeJInitialDisp := None;
     initialDispChecked := false;
     crs := crs_make vz';
     alphaI := v3_zero; alphaJ := v3_zero;
     Q_pres := Q_pres blank; Q_past := Q_past blank;
     ul := ul blank; ulpr := ulpr blank; ulcommit := ulcommit blank;
     vr := vr blank; T := T blank |}.

(** [getCopy() const]: a new object from the constructor, then the
    member-by-member assignments of the source. *)
Definition getCopy (blank this : SouzaFrameTransf) : SouzaFrameTransf :=
  let theCopy := construct blank (tag this) (vz this) (offsets this) in
  let theCopy := set_nodes (arr_set 0 (arr_get (nodes this) 0) (nodes theCopy)) theCopy in
  let theCopy := set_nodes (arr_set 1 (arr_get (nodes this) 1) (nodes theCopy)) theCopy in
  let theCopy := set_xAxis (xAxis this) theCopy in
  let theCopy := set_L (L this) theCopy in
  let theCopy := set_Ln (Ln this) theCopy in
  let theCopy := set_R0 (R0 this) theCopy in
  let theCopy := set_Q_pres (arr_set 0 (arr_get (Q_pres this) 0) (Q_pres theCopy)) theCopy in
  let theCopy := set_Q_pres (arr_set 1 (arr_get (Q_pres this) 1) (Q_pres theCopy)) theCopy in
  let theCopy := set_Q_past (arr_set 0 (arr_get (Q_past this) 0) (Q_past theCopy)) theCopy in
  let theCopy := set_Q_past (arr_set 1 (arr_get (Q_past this) 1) (Q_past theCopy)) theCopy in
  let theCopy := set_ul (ul this) theCopy in
  let theCopy := set_ulcommit (ulcommit this) theCopy in
  theCopy.

Definition getInitialLength : M D := this ← get_this; mret (L this).

Definition getDeformedLength : M D := this ← get_this; mret (Ln this).

(** *** update *)

(** The deformed chord: [dx = dX; dx[k] += dispJ(k) - dispI(k)]. *)
Definition deformed_chord (dX' : Vector3D D) (dispI dispJ : VectorND D) : Vector3D D :=
  foldl (λ dx k, v3_set k (v3_get dx k + (dispJ !!! k - dispI !!! k))%D dx) dX' (seq 0 3).

(** What the loop of step 1.2 leaves in [dAlpha] for one node:
    [dAlpha[k] = disp(k+3) - alpha[k]], the trial rotation minus the value
    the tracker [alpha] held when the call began. *)
Definition increment (disp : VectorND D) (alpha : Vector3D D) : Vector3D D :=
  V3 (disp !!! 3%nat - v0 alpha)%D (disp !!! 4%nat - v1 alpha)%D (disp !!! 5%nat - v2 alpha)%D.

(** The rotational part of a nodal displacement, what the same loop leaves
    in the tracker: [alpha[k] = disp(k+3)]. *)
Definition rotation_of (disp : VectorND D) : Vector3D D :=
  V3 (disp !!! 3%nat) (disp !!! 4%nat) (disp !!! 5%nat).

Definition update : M Z :=
  this ← get_this;
  nodeI ← deref (arr_get (nodes this) 0);
  nodeJ ← deref (arr_get (nodes this) (nn - 1));
  let dispI := TrialDisp nodeI in
  let dispJ := TrialDisp nodeJ in
  (* 1.1 Relative translation and deformed length *)
  let dx := deformed_chord (dX this) dispI dispJ in
  assign (set_Ln (norm dx));;
  this ← get_this;
  if (Ln this == d0)%D then
    opserr "SouzaFrameTransf: deformed length is 0.0";;
    mret DegenerateGeometryError
  else
    (* 1.2 Rotational displacement increments; the loop assigns every entry
       of the locals dAlphaI and dAlphaJ *)
    '(dAlphaI, dAlphaJ) ←
      for_each (seq 0 3) (λ k '(dAI, dAJ),
        this ← get_this;
        let dAI := v3_set k (dispI !!! (k + 3)%nat - v3_get (alphaI this) k)%D dAI in
        assign (λ this, set_alphaI (v3_set k (dispI !!! (k + 3)%nat) (alphaI this)) this);;
        this ← get_this;
        let dAJ := v3_set k (dispJ !!! (k + 3)%nat - v3_get (alphaJ this) k)%D dAJ in
        assign (λ this, set_alphaJ (v3_set k (dispJ !!! (k + 3)%nat) (alphaJ this)) this);;
        mret (dAI, dAJ)) (v3_zero, v3_zero);
    (* Update the nodal rotations; the Hamilton product is assumed *)
    (if (norm dAlphaI != d0)%D then
       assign (λ this, set_Q_pres
         (arr_set 0 (hamilton (from_vector dAlphaI) (arr_get (Q_pres this) 0)) (Q_pres this)) this)
     else mret tt);;
    (if (norm dAlphaJ != d0)%D then
       assign (λ this, set_Q_pres
         (arr_set 1 (hamilton (from_vector dAlphaJ) (arr_get (Q_pres this) 1)) (Q_pres this)) this)
     else mret tt);;
    (* 2) Form transformation *)
    dom ← get_domain;
    assign (λ this, set_crs
      (crs_update (crs this) (MatrixFromVersor (arr_get (Q_pres this) 0))
                  (MatrixFromVersor (arr_get (Q_pres this) 1)) dx (nodes this) dom) this);;
    (* 3) Local deformations: save previous state *)
    assign (λ this, set_ulpr (ul this) this);;
    (* Rotations *)
    this ← get_this;
    let e := crs_getRotation (crs this) in
    assign (λ this, set_vr
      (arr_set 0 (LogC90 (mat_tmul e (MatrixFromVersor (arr_get (Q_pres this) 0)))) (vr this)) this);;
    for_each (seq 0 3) (λ i _,
      assign (λ this, set_ul (<[(imx + i)%nat := v3_get (arr_get (vr this) 0) i]> (ul this)) this)) tt;;
    assign (λ this, set_vr
      (arr_set 1 (LogC90 (mat_tmul e (MatrixFromVersor (arr_get (Q_pres this) 1)))) (vr this)) this);;
    for_each (seq 0 3) (λ i _,
      assign (λ this, set_ul (<[(jmx + i)%nat := v3_get (arr_get (vr this) 1) i]> (ul this)) this)) tt;;
    (* Axial *)
    assign (λ this, set_ul (<[inx := d0]> (ul this)) this);;
    assign (λ this, set_ul (<[jnx := (Ln this - L this)%D]> (ul this)) this);;
    (* Form the transformation tangent *)
    assign (λ this, set_T (crs_compute_tangent (crs this) (ul this)) this);;
    mret OK.

(** *** commit and the two reverts *)

Definition commit : M Z :=
  assign (λ this, set_ulcommit (ul this) this);;
  assign (λ this, set_Q_past (arr_set 0 (arr_get (Q_pres this) 0) (Q_past this)) this);;
  assign (λ this, set_Q_past (arr_set 1 (arr_get (Q_pres this) 1) (Q_past this)) this);;
  mret 0%Z.

Definition revertToStart : M Z :=
  assign (set_ul (vec_zero (nn * ndf)));;
  assign (λ this, set_Q_pres (arr_set 0 (from_matrix (R0 this)) (Q_pres this)) this);;
  for_each (seq 1 (nn - 1)) (λ i _,
    assign (λ this, set_Q_pres (arr_set i (arr_get (Q_pres this) 0) (Q_pres this)) this)) tt;;
  assign (set_alphaI v3_zero);;
  assign (set_alphaJ v3_zero);;
  (* this->update(): the status is not looked at *)
  update;;
  mret 0%Z.

Definition revertToLastCommit : M Z :=
  this ← get_this;
  nodeI ← deref (arr_get (nodes this) 0);
  nodeJ ← deref (arr_get (nodes this) 1);
  let dispI := TrialDisp nodeI in
  let dispJ := TrialDisp nodeJ in
  for_each (seq 0 3) (λ k _,
    assign (λ this, set_alphaI (v3_set k (dispI !!! (k + 3)%nat) (alphaI this)) this);;
    assign (λ this, set_alphaJ (v3_set k (dispJ !!! (k + 3)%nat) (alphaJ this)) this)) tt;;
  assign (λ this, set_ul (ulcommit this) this);;
  assign (λ this, set_Q_pres (arr_set 0 (arr_get (Q_past this) 0) (Q_pres this)) this);;
  assign (λ this, set_Q_pres (arr_set 1 (arr_get (Q_past this) 1) (Q_pres this)) this);;
  (* this->update(): the status is not looked at *)
  update;;
  mret 0%Z.

(** The sequence [commit(); revertToLastCommit()], returning the status of
    the revert. *)
Definition commit_then_revert : M Z := commit;; revertToLastCommit.

(** *** initialize *)

(** The first loop of [initialize]: [nodes[i] = new_nodes[i]], returning
    [-1] at the first null pointer. *)
Fixpoint bind_nodes (new_nodes : Arr2 NodePtr) (idx : list nat) : M Z :=
  match idx with
  | [] => mret OK
  | i :: idx' =>
      assign (λ this, set_nodes (arr_set i (arr_get new_nodes i) (nodes this)) this);;
      this ← get_this;
      match arr_get (nodes this) i with
      | None =>
          opserr "invalid pointers to the element nodes";;
          mret InvalidNodeError
      | Some _ => bind_nodes new_nodes idx'
      end
  end.

(** The scan for a non-zero initial displacement: the first non-zero entry
    allocates the array, copies the six entries and ends the loop. *)
Definition initial_disp (nodeDisp : VectorND D) : option (list D) :=
  if existsb (λ i, (nodeDisp !!! i != d0)%D) (seq 0 6)
  then Some ((λ j, nodeDisp !!! j) <$> seq 0 6)
  else None.

Definition initialize (new_nodes : Arr2 NodePtr) : M Z :=
  status ← bind_nodes new_nodes (seq 0 nn);
  if negb (status =? OK)%Z then mret status
  else
    dom ← get_domain;
    assign (λ this, set_crs (crs_initialize (crs this) new_nodes dom) this);;
    this ← get_this;
    nodeI ← deref (arr_get (nodes this) 0);
    nodeJ ← deref (arr_get (nodes this) (nn - 1));
    assign (set_dX (Crds nodeJ));;
    assign (λ this, set_dX (v3_sub (dX this) (Crds nodeI)) this);;
    (* Add initial displacements at nodes *)
    this ← get_this;
    (if negb (initialDispChecked this) then
       (match initial_disp (Disp nodeI) with
        | Some a => assign (set_nodeIInitialDisp (Some a))
        | None => mret tt
        end);;
       (match initial_disp (Disp nodeJ) with
        | Some a => assign (set_nodeJInitialDisp (Some a))
        | None => mret tt
        end);;
       assign (set_initialDispChecked true)
     else mret tt);;
    (* Length and orientation *)
    let dx := v3_sub (Crds nodeJ) (Crds nodeI) in
    assign (set_L (norm dx));;
    this ← get_this;
    if (L this == d0)%D then
      opserr "SouzaFrameTransf::computeElemtLengthAndOrien: 0 length";;
      mret DegenerateGeometryError
    else
      (* Set rotation matrix *)
      let '(error, R) := Orient dx (vz this) (R0 this) in
      assign (set_R0 R);;
      if negb (error =? 0)%Z then mret error
      else
        (* Compute initial pseudo-vectors for nodal triads *)
        assign (λ this, set_Q_pres (arr_set 1 (from_matrix (R0 this)) (Q_pres this)) this);;
        assign (λ this, set_Q_pres (arr_set 0 (arr_get (Q_pres this) 1) (Q_pres this)) this);;
        assign (set_ul (vec_zero (nn * ndf)));;
        assign (set_ulpr (vec_zero (nn * ndf)));;
        for_each (seq 0 nn) (λ i _,
          assign (λ this, set_vr (arr_set i v3_zero (vr this)) this)) tt;;
        commit;;
        mret OK.

(** *** push (force) *)

(** Modelled from the spec: [VectorND::assemble(a, v, scale)] of VectorND.h,
    which the spec calls block assembly: [self[a+i] += v[i]*scale]. *)
Definition assemble (a : nat) (v : VectorND D) (scale : D) (self : VectorND D) : VectorND D :=
  foldl (λ self i, <[(a + i)%nat := (self !!! (a + i)%nat + v !!! i * scale)%D]> self)
        self (seq 0 (length v)).

(** [push(VectorND<nn*ndf>& pl, Operation)]: returns the status and the
    value it leaves in [pl]. *)
Definition push (pl : VectorND D) : M (Z * VectorND D) :=
  this ← get_this;
  let pg :=
    foldl (λ pg a,
      let pa := [pl !!! (a * ndf + 0)%nat; pl !!! (a * ndf + 1)%nat; pl !!! (a * ndf + 2)%nat;
                 pl !!! (a * ndf + 3)%nat; pl !!! (a * ndf + 4)%nat; pl !!! (a * ndf + 5)%nat] in
      foldl (λ pg b,
        let pab :=
          foldl (λ pab i,
            foldl (λ pab j,
              <[j := (pab !!! j + mat_at (T this) (a * 6 + i) (b * 6 + j) * pa !!! i)%D]> pab)
              pab (seq 0 6))
            (vec_zero 6) (seq 0 6) in
        assemble (b * 6) pab d1 pg)
        pg (seq 0 2))
      (vec_zero (nn * ndf)) (seq 0 nn) in
  mret (0%Z, pg).

(** *** Sensitivity *)

(** [v(k) = x] for a [Vector3D] and an [int] index. *)
Definition v3_store (k : Z) (x : D) (v : Vector3D D) : M (Vector3D D) :=
  if decide (0 ≤ k < 3)%Z then mret (v3_set (Z.to_nat k) x v) else undefined.

Definition getLengthGrad : M D :=
  this ← get_this;
  nodeI ← deref (arr_get (nodes this) 0);
  nodeJ ← deref (arr_get (nodes this) 1);
  let di := CrdsSensitivity nodeI in
  let dj := CrdsSensitivity nodeJ in
  dxi ← (if negb (di =? 0)%Z then v3_store (di - 1) d1 v3_zero else mret v3_zero);
  dxj ← (if negb (dj =? 0)%Z then v3_store (dj - 1) d1 v3_zero else mret v3_zero);
  mret (d1 / L this * dot (dX this) (v3_sub dxj dxi))%D.

(** [static Vector dummy(1)]: one entry, zero. *)
Definition dummy : VectorND D := [d0].

Definition getBasicDisplTotalGrad (gradNumber : Z) : M (VectorND D) :=
  opserr "WARNING CrdTransf::getBasicDisplTotalGrad() - this method  should not be called.";;
  mret dummy.

Definition getBasicDisplFixedGrad : M (VectorND D) :=
  opserr "ERROR CrdTransf::getBasicDisplFixedGrad() - has not been implemented yet for the chosen transformation.";;
  mret dummy.

Definition getGlobalResistingForceShapeSensitivity (pb p0 : VectorND D) (gradNumber : Z)
    : M (VectorND D) :=
  opserr "ERROR CrdTransf::getGlobalResistingForceSensitivity() - has not been implemented yet for the chosen transformation.";;
  mret dummy.

End Transformation.

(** ** Closed forms *)

(** What the methods leave behind, written without the monad.  The lemmas
    of the next part show that the methods compute exactly these. *)
Section ClosedForms.
Context {D : Type} `{Ext : Externals D}.

(** Step 1.2 for one node: the increment is composed on the left of the
    trial versor, [from_vector(dAlpha) * q], and only when its norm is not
    zero. *)
Definition compose (dAlpha : Vector3D D) (q : Versor) : Versor :=
  if (norm dAlpha != d0)%D then hamilton (from_vector dAlpha) q else q.

(** The three entries [u[at+i] = v[i]] of one rotation block. *)
Definition write3 (at' : nat) (v : Vector3D D) (u : VectorND D) : VectorND D :=
  <[(at' + 2)%nat := v2 v]> (<[(at' + 1)%nat := v1 v]> (<[(at' + 0)%nat := v0 v]> u)).

(** The object after an [update] that passed the length check, for nodes
    at addresses [a] and [b]. *)
Definition update_post (dom : Domain D) (s : SouzaFrameTransf) (a b : nat)
    : SouzaFrameTransf :=
  let dispI := TrialDisp (dom a) in
  let dispJ := TrialDisp (dom b) in
  let dx := deformed_chord (dX s) dispI dispJ in
  let qI := compose (increment dispI (alphaI s)) (fst (Q_pres s)) in
  let qJ := compose (increment dispJ (alphaJ s)) (snd (Q_pres s)) in
  let c := crs_update (crs s) (MatrixFromVersor qI) (MatrixFromVersor qJ) dx (nodes s) dom in
  let e := crs_getRotation c in
  let vrI := LogC90 (mat_tmul e (MatrixFromVersor qI)) in
  let vrJ := LogC90 (mat_tmul e (MatrixFromVersor qJ)) in
  let u := <[jnx := (norm dx - L s)%D]>
             (<[inx := d0]> (write3 jmx vrJ (write3 imx vrI (ul s)))) in
  {| tag := tag s; vz := vz s; offsets := offsets s; nodes := nodes s; xAxis := xAxis s;
     dX := dX s; L := L s; Ln := norm dx; R0 := R0 s;
     nodeIInitialDisp := nodeIInitialDisp s; nodeJInitialDisp := nodeJInitialDisp s;
     initialDispChecked := initialDispChecked s;
     crs := c; alphaI := rotation_of dispI; alphaJ := rotation_of dispJ;
     Q_pres := (qI, qJ); Q_past := Q_past s;
     ul := u; ulpr := ul s; ulcommit := ulcommit s; vr := (vrI, vrJ);
     T := crs_compute_tangent c u |}.

(** The object after [commit]. *)
Definition commit_post (s : SouzaFrameTransf) : SouzaFrameTransf :=
  set_Q_past (fst (Q_pres s), snd (Q_pres s)) (set_ulcommit (ul s) s).

(** The object [revertToLastCommit] hands to its inner [update]. *)
Definition revertToLastCommit_prep (dom : Domain D) (s : SouzaFrameTransf) (a b : nat)
    : SouzaFrameTransf :=
  set_Q_pres (fst (Q_past s), snd (Q_past s))
    (set_ul (ulcommit s)
      (set_alphaJ (rotation_of (TrialDisp (dom b)))
        (set_alphaI (rotation_of (TrialDisp (dom a))) s))).

(** The object [revertToStart] hands to its inner [update]. *)
Definition revertToStart_prep (s : SouzaFrameTransf) : SouzaFrameTransf :=
  set_alphaJ v3_zero
    (set_alphaI v3_zero
      (set_Q_pres (from_matrix (R0 s), from_matrix (R0 s))
        (set_ul (vec_zero (nn * ndf)) s))).

(** Both node pointers of the object are bound. *)
Definition bound (s : SouzaFrameTransf) (a b : nat) : Prop :=
  nodes s = (Some a, Some b).

(** The deformed chord [update] computes for the object. *)
Definition chord (dom : Domain D) (s : SouzaFrameTransf) (a b : nat) : Vector3D D :=
  deformed_chord (dX s) (TrialDisp (dom a)) (TrialDisp (dom b)).

(** The rotation step of [update] relates [s] to [s']: the trackers hold
    the trial rotations, and each trial versor has its increment composed
    on the left. *)
Definition rotation_step (dom : Domain D) (s s' : SouzaFrameTransf) (a b : nat) : Prop :=
  alphaI s' = rotation_of (TrialDisp (dom a)) ∧
  alphaJ s' = rotation_of (TrialDisp (dom b)) ∧
  fst (Q_pres s') = compose (increment (TrialDisp (dom a)) (alphaI s)) (fst (Q_pres s)) ∧
  snd (Q_pres s') = compose (increment (TrialDisp (dom b)) (alphaJ s)) (snd (Q_pres s)).

(** A trial rotation whose increment over itself has zero norm (any finite
    rotation, in binary64). *)
Definition steady (disp : VectorND D) : Prop :=
  (norm (increment disp (rotation_of disp)) == d0)%D = true.

(** The isometry's contract: updating twice with the same arguments leaves
    the mean rotation of updating once. *)
Definition isometry_idempotent (dom : Domain D) : Prop :=
  ∀ c RI RJ dx ns,
    crs_getRotation (crs_update (crs_update c RI RJ dx ns dom) RI RJ dx ns dom) =
    crs_getRotation (crs_update c RI RJ dx ns dom).

(** A method that is a stub: whatever the object, it writes a diagnostic,
    returns the one-entry dummy and leaves the object alone. *)
Definition is_stub (m : M (VectorND D)) : Prop :=
  ∀ dom s, ∃ msg, m dom s = Some (dummy, s, [msg]).

(** A call that wrote a diagnostic. *)
Definition emitted_diagnostic {A} (r : option (A * SouzaFrameTransf * list string)) : Prop :=
  ∃ a s' o, r = Some (a, s', o) ∧ o ≠ [].

(** The vector [getLengthGrad] builds from a node's coordinate-sensitivity
    index [d]: zero, with entry [d-1] set to one when [d] is not zero. *)
Definition sensitivity_direction (d : Z) : Vector3D D :=
  if (d =? 0)%Z then v3_zero else v3_set (Z.to_nat (d - 1)) d1 v3_zero.

(** A sequence of indexed assignments to a vector, the last one first. *)
Definition writes (ws : list (nat * D)) (u : VectorND D) : VectorND D :=
  foldr (λ w acc, <[w.1 := w.2]> acc) u ws.

(** The assignments a successful [update] makes to [ul], the last one
    first. *)
Definition local_deformations (dom : Domain D) (s : SouzaFrameTransf) (a b : nat)
    : list (nat * D) :=
  let s' := update_post dom s a b in
  let vrI := fst (vr s') in
  let vrJ := snd (vr s') in
  [(jnx, (Ln s' - L s)%D); (inx, d0);
   ((jmx + 2)%nat, v2 vrJ); ((jmx + 1)%nat, v1 vrJ); ((jmx + 0)%nat, v0 vrJ);
   ((imx + 2)%nat, v2 vrI); ((imx + 1)%nat, v1 vrI); ((imx + 0)%nat, v0 vrI)].

(** *** The transposed product *)

(** [Σ_k x k], summed from the left. *)
Definition sum_upto (n : nat) (x : nat → D) : D :=
  foldl (λ acc k, (acc + x k)%D) d0 (seq 0 n).

(** The transpose of a 12 x 12 matrix. *)
Definition transpose (A : MatrixND D) : MatrixND D :=
  (λ c, (λ r, mat_at A r c) <$> seq 0 (nn * ndf)) <$> seq 0 (nn * ndf).

(** The product of a 12 x 12 matrix with a 12-vector. *)
Definition mat_vec (A : MatrixND D) (v : VectorND D) : VectorND D :=
  (λ r, sum_upto (nn * ndf) (λ k, (mat_at A r k * v !!! k)%D)) <$> seq 0 (nn * ndf).

(** Modelled from the spec: the global force [Tᵗ · pl], block-assembled as
    two 6-DOF groups per node.  Entry [c] is the sum over the two nodes [a]
    of the group sum [Σ_{i<6} T(6a+i, c) * pl(6a+i)]; each group is summed
    from zero and assembled with the scale [1.0]. *)
Definition transposed_product_by_blocks (A : MatrixND D) (pl : VectorND D) : VectorND D :=
  (λ c, foldl (λ acc a,
                 (acc + sum_upto 6 (λ i, (mat_at A (a * 6 + i) c * pl !!! (a * ndf + i)%nat)%D)
                        * d1)%D)
              d0 (seq 0 nn))
    <$> seq 0 (nn * ndf).

End ClosedForms.

(** ** A sample implementation of the external classes *)

(** Small enough to run the methods on concrete objects: quaternions with
    the Hamilton product, the Cayley map where the library calls sine and
    cosine, the axial vector for the logarithm, node I's triad as the mean
    rotation, the identity as the tangent, and the index enum
    [inx = 0, imx = 3, jnx = 6, jmx = 9].  The theorems hold for every
    implementation; the sample only supplies the concrete objects they are
    run on. *)
Module Sample.

Section Generic.
Context {D : Type} `{Scalar D} (sqrt : D → D).

Local Open Scope scalar_scope.

Record Quaternion := Quat { vector : Vector3D D; scalar : D }.

Definition half : D := d1 / (d1 + d1).

Definition two : D := d1 + d1.

Definition dot3 (a b : Vector3D D) : D :=
  v0 a * v0 b + v1 a * v1 b + v2 a * v2 b.

Definition norm3 (a : Vector3D D) : D := sqrt (dot3 a a).

Definition cross (a b : Vector3D D) : Vector3D D :=
  V3 (v1 a * v2 b - v2 a * v1 b) (v2 a * v0 b - v0 a * v2 b) (v0 a * v1 b - v1 a * v0 b).

Definition scale (c : D) (a : Vector3D D) : Vector3D D :=
  V3 (c * v0 a) (c * v1 a) (c * v2 a).

Definition add3 (a b : Vector3D D) : Vector3D D :=
  V3 (v0 a + v0 b) (v1 a + v1 b) (v2 a + v2 b).

Definition col (m : Matrix3D D) (j : nat) : Vector3D D :=
  V3 (v3_get (r0 m) j) (v3_get (r1 m) j) (v3_get (r2 m) j).

(** [A^B]: the transpose of [A] times [B]. *)
Definition tmul (A B : Matrix3D D) : Matrix3D D :=
  let row i := V3 (dot3 (col A i) (col B 0)) (dot3 (col A i) (col B 1))
                  (dot3 (col A i) (col B 2)) in
  M3 (row 0%nat) (row 1%nat) (row 2%nat).

Definition identity : Matrix3D D := M3 (V3 d1 d0 d0) (V3 d0 d1 d0) (V3 d0 d0 d1).

(** The Hamilton product [q * p]. *)
Definition qmul (q p : Quaternion) : Quaternion :=
  Quat (add3 (add3 (scale (scalar q) (vector p)) (scale (scalar p) (vector q)))
             (cross (vector q) (vector p)))
       (scalar q * scalar p - dot3 (vector q) (vector p)).

(** The unit quaternion of the rotation with Rodrigues vector [v/2]. *)
Definition of_vector (v : Vector3D D) : Quaternion :=
  let h := scale half v in
  let n := sqrt (d1 + dot3 h h) in
  Quat (scale (d1 / n) h) (d1 / n).

Definition to_matrix (q : Quaternion) : Matrix3D D :=
  let w := scalar q in
  let x := v0 (vector q) in
  let y := v1 (vector q) in
  let z := v2 (vector q) in
  M3 (V3 (d1 - two * (y * y + z * z)) (two * (x * y - w * z)) (two * (x * z + w * y)))
     (V3 (two * (x * y + w * z)) (d1 - two * (x * x + z * z)) (two * (y * z - w * x)))
     (V3 (two * (x * z - w * y)) (two * (y * z + w * x)) (d1 - two * (x * x + y * y))).

(** The axial vector of the skew part of a matrix. *)
Definition axial (m : Matrix3D D) : Vector3D D :=
  V3 (half * (v1 (r2 m) - v2 (r1 m))) (half * (v2 (r0 m) - v0 (r2 m)))
     (half * (v0 (r1 m) - v1 (r0 m))).

Definition of_matrix (m : Matrix3D D) : Quaternion :=
  let w := half * sqrt (d1 + v0 (r0 m) + v1 (r1 m) + v2 (r2 m)) in
  Quat (scale (half / w) (axial m)) w.

(** A triad with its first axis along [dx] and its second across [vz];
    error [-3] when [vz] is parallel to [dx]. *)
Definition orient (dx vz' : Vector3D D) (R : Matrix3D D) : Z * Matrix3D D :=
  let e1 := scale (d1 / norm3 dx) dx in
  let y := cross vz' e1 in
  if norm3 y == d0 then ((-3)%Z, R)
  else
    let e2 := scale (d1 / norm3 y) y in
    let e3 := cross e1 e2 in
    (0%Z, M3 (V3 (v0 e1) (v0 e2) (v0 e3)) (V3 (v1 e1) (v1 e2) (v1 e3))
             (V3 (v2 e1) (v2 e2) (v2 e3))).

Definition eye12 : MatrixND D :=
  (λ r, (λ c, if decide (r = c) then d1 else d0) <$> seq 0 12) <$> seq 0 12.

Definition externals : Externals D := {|
  norm := norm3;
  dot := dot3;
  mat_tmul := tmul;
  Versor := Quaternion;
  from_matrix := of_matrix;
  from_vector := of_vector;
  hamilton := qmul;
  MatrixFromVersor := to_matrix;
  LogC90 := axial;
  Orient := orient;
  Isometry := Matrix3D D;
  crs_make := λ _, identity;
  crs_initialize := λ c _ _, c;
  crs_update := λ _ RI _ _ _ _, RI;
  crs_getRotation := λ c, c;
  crs_compute_tangent := λ _ _, eye12;
  inx := 0; jnx := 6; imx := 3; jmx := 9
|}.

End Generic.

(** The sample on binary64 and on exact integers. *)
#[global] Instance on_Z : Externals Z := externals Z.sqrt.
#[global] Instance on_binary64 : Externals float := externals PrimFloat.sqrt.

Section Objects.
Context {D : Type} `{Ext : Externals D}.

(** Members the constructor leaves default-initialised: zeros here. *)
Definition blank (q : Versor) (c : Isometry) : SouzaFrameTransf :=
  {| tag := 0; vz := v3_zero; offsets := None; nodes := (None, None);
     xAxis := v3_zero; dX := v3_zero; L := d0; Ln := d0;
     R0 := M3 v3_zero v3_zero v3_zero;
     nodeIInitialDisp := None; nodeJInitialDisp := None; initialDispChecked := false;
     crs := c; alphaI := v3_zero; alphaJ := v3_zero;
     Q_pres := (q, q); Q_past := (q, q);
     ul := vec_zero 12; ulpr := vec_zero 12; ulcommit := vec_zero 12;
     vr := (v3_zero, v3_zero); T := [] |}.

(** Node 0 at the origin and node 1 at (1,0,0), with committed
    displacement zero, trial displacements [dI] and [dJ], and coordinate
    sensitivity indices 0 and 1. *)
Definition domain (dI dJ : VectorND D) : Domain D :=
  λ a, match a with
       | O => mkNode v3_zero (vec_zero 6) dI 0
       | _ => mkNode (V3 d1 d0 d0) (vec_zero 6) dJ 1
       end.

(** The object a call leaves, or the object itself when the call has no
    defined result. *)
Definition after {A} (m : M A) (dom : Domain D) (s : SouzaFrameTransf) : SouzaFrameTransf :=
  match m dom s with
  | Some (_, s', _) => s'
  | None => s
  end.

(** The value a call returns and the diagnostics it writes. *)
Definition outcome {A} (r : option (A * SouzaFrameTransf * list string))
    : option (A * list string) :=
  match r with
  | Some (a, _, out) => Some (a, out)
  | None => None
  end.

End Objects.

Local Open Scope float_scope.

Definition blank64 : SouzaFrameTransf := blank (Ext := on_binary64) (Quat v3_zero 1) identity.

(** A transformation with up-vector (0,0,1), constructed and initialised on
    the two nodes at rest. *)
Definition ready : SouzaFrameTransf :=
  Eval vm_compute in
    after (initialize (Some 0%nat, Some 1%nat)) (domain (vec_zero 6) (vec_zero 6))
          (construct blank64 1 (V3 0 0 1) None).

(** Node I turned by 0.5 about x; node J moved by 0.25 along x and turned
    by 0.25 about z. *)
Definition moved : Domain float := domain [0; 0; 0; 0.5; 0; 0] [0.25; 0; 0; 0; 0; 0.25].

(** Node I turned by 0.5 about x; node J moved onto node I. *)
Definition collapsed : Domain float := domain [0; 0; 0; 0.5; 0; 0] [-1; 0; 0; 0; 0; 0].

(** The object before [initialize]. *)
Definition fresh : SouzaFrameTransf := construct blank64 1 (V3 0 0 1) None.

(** The two nodes at rest. *)
Definition at_rest : Domain float := domain (vec_zero 6) (vec_zero 6).

(** The object after an update on the moved nodes. *)
Definition updated : SouzaFrameTransf := Eval vm_compute in after update moved ready.

(** A 12 x 12 integer matrix and a 12-vector. *)
Definition Tz : MatrixND Z :=
  (λ r, (λ c, (Z.of_nat r * 12 + Z.of_nat c)%Z) <$> seq 0 12) <$> seq 0 12.

Definition plz : VectorND Z := (λ k, (Z.of_nat k - 5)%Z) <$> seq 0 12.

Definition withTz : SouzaFrameTransf (Ext := on_Z) :=
  set_T Tz (blank (Ext := on_Z) (Quat v3_zero 1%Z) identity).

Definition at_rest_Z : Domain Z := domain (vec_zero 6) (vec_zero 6).

(** A binary64 matrix whose column 0 holds [2^53] in row 0 and [1] in rows
    6 and 7, zero elsewhere, and the 12-vector of ones. *)
Definition Tbig : MatrixND float :=
  (λ r, (λ c, match c, r with
              | O, O => 9007199254740992%float
              | O, 6%nat => 1%float
              | O, 7%nat => 1%float
              | _, _ => 0%float
              end) <$> seq 0 12) <$> seq 0 12.

Definition ones : VectorND float := replicate 12 1%float.

Definition withTbig : SouzaFrameTransf := set_T Tbig blank64.

End Sample.

(** ** The remaining accessors and the life cycle *)

Section Accessors.
Context {D : Type} `{Ext : Externals D}.

Definition set_offsets x (s : SouzaFrameTransf) : SouzaFrameTransf :=
  {| tag := tag s; vz := vz s; offsets := x; nodes := nodes s; xAxis := xAxis s;
     dX := dX s; L := L s; Ln := Ln s; R0 := R0 s; nodeIInitialDisp := nodeIInitialDisp s;
     nodeJInitialDisp := nodeJInitialDisp s; initialDispChecked := initialDispChecked s;
     crs := crs s; alphaI := alphaI s; alphaJ := alphaJ s; Q_pres := Q_pres s;
     Q_past := Q_past s; ul := ul s; ulpr := ulpr s; ulcommit := ulcommit s; vr := vr s;
     T := T s |}.

(** Entry-wise [operator-] of VectorND. *)
Definition vec_sub (u v : VectorND D) : VectorND D := zip_with dsub u v.

(** [getStateVariation()]: [ul - ulpr]. *)
Definition getStateVariation : M (VectorND D) :=
  this ← get_this;
  mret (vec_sub (ul this) (ulpr this)).

(** [getNodePosition(tag)], for [tag] 0 or 1: [u[i] = ul[tag*ndf+i]]; the
    loop assigns every entry of the local [u]. *)
Definition getNodePosition (node : nat) : M (Vector3D D) :=
  this ← get_this;
  mret (foldl (λ u i, v3_set i (ul this !!! (node * ndf + i)%nat) u) v3_zero (seq 0 3)).

(** [getNodeRotationLogarithm(tag)], for [tag] 0 or 1: [vr[tag]]. *)
Definition getNodeRotationLogarithm (node : nat) : M (Vector3D D) :=
  this ← get_this;
  mret (arr_get (vr this) node).

(** [R(i,j)] of a [Matrix3D]. *)
Definition m3_at (R : Matrix3D D) (i j : nat) : D :=
  v3_get (match i with
          | O => r0 R
          | S O => r1 R
          | _ => r2 R
          end) j.

(** [getLocalAxes(e1, e2, e3) const]: returns the status and what it leaves
    in the three reference arguments, [e1[i] = R0(i,0)], [e2[i] = R0(i,1)],
    [e3[i] = R0(i,2)]. *)
Definition getLocalAxes (e1 e2 e3 : Vector3D D)
    : M (Z * (Vector3D D * Vector3D D * Vector3D D)) :=
  this ← get_this;
  mret (0%Z,
        foldl (λ '(e1, e2, e3) i,
                 (v3_set i (m3_at (R0 this) i 0) e1,
                  v3_set i (m3_at (R0 this) i 1) e2,
                  v3_set i (m3_at (R0 this) i 2) e3))
              (e1, e2, e3) (seq 0 3)).

(** The methods an element calls on an initialised transformation. *)
Inductive Op : Type := OpUpdate | OpCommit | OpRevertToLastCommit | OpRevertToStart.

Definition run_op (op : Op) : M Z :=
  match op with
  | OpUpdate => update
  | OpCommit => commit
  | OpRevertToLastCommit => revertToLastCommit
  | OpRevertToStart => revertToStart
  end.

(** A sequence of calls, each made under the node state of its time; the
    object it leaves, or [None] when a call has no defined result. *)
Fixpoint run_ops (calls : list (Op * Domain D)) (s : SouzaFrameTransf)
    : option SouzaFrameTransf :=
  match calls with
  | [] => Some s
  | (op, dom) :: rest =>
      match run_op op dom s with
      | Some (_, s', _) => run_ops rest s'
      | None => None
      end
  end.

(** An entry of [ul] that [update] never assigns, or assigns zero: every
    index but [jnx] and the two rotation blocks. *)
Definition idle (k : nat) : Prop :=
  k ∉ [jnx; imx; (imx + 1)%nat; (imx + 2)%nat; jmx; (jmx + 1)%nat; (jmx + 2)%nat].

(** The eight entries [update] assigns are different entries of a
    12-vector. *)
Definition layout_disjoint : Prop :=
  NoDup [inx; jnx; imx; (imx + 1)%nat; (imx + 2)%nat; jmx; (jmx + 1)%nat; (jmx + 2)%nat] ∧
  Forall (λ k, (k < nn * ndf)%nat)
         [inx; jnx; imx; (imx + 1)%nat; (imx + 2)%nat; jmx; (jmx + 1)%nat; (jmx + 2)%nat].

(** The index enum with each node's block laid out as three forces, then
    three moments. *)
Definition standard_layout : Prop := inx = 0%nat ∧ imx = 3%nat ∧ jnx = 6%nat ∧ jmx = 9%nat.

(** The members [update] never reads: the rigid offsets and the
    initial-displacement baseline. *)
Definition with_unused (o : option (Arr2 (Vector3D D))) (xI xJ : option (list D))
    (checked : bool) (s : SouzaFrameTransf) : SouzaFrameTransf :=
  set_initialDispChecked checked
    (set_nodeJInitialDisp xJ (set_nodeIInitialDisp xI (set_offsets o s))).

(** A change of the object a call leaves. *)
Definition on_object {A} (f : SouzaFrameTransf → SouzaFrameTransf)
    (r : option (A * SouzaFrameTransf * list string))
    : option (A * SouzaFrameTransf * list string) :=
  match r with
  | Some (a, s', out) => Some (a, f s', out)
  | None => None
  end.

(** The status [initialize] returns. *)
Definition initialize_status (dom : Domain D) (s : SouzaFrameTransf)
    (new_nodes : Arr2 NodePtr) : Z :=
  match new_nodes with
  | (Some a, Some b) =>
      let dx := v3_sub (Crds (dom b)) (Crds (dom a)) in
      if (norm dx == d0)%D then DegenerateGeometryError
      else fst (Orient dx (vz s) (R0 s))
  | _ => InvalidNodeError
  end.

(** *** Closed forms of [initialize] *)

(** The initial-displacement array after the scan of one node: allocated
    from the committed displacement [disp] at the first call that finds a
    non-zero entry, and never looked at again once [initialDispChecked]. *)
Definition baseline (checked : bool) (old : option (list D)) (disp : VectorND D)
    : option (list D) :=
  if checked then old
  else match initial_disp disp with
       | Some x => Some x
       | None => old
       end.

(** The object after [initialize] has bound two nodes and computed the
    reference chord and length. *)
Definition initialize_geometry (dom : Domain D) (s : SouzaFrameTransf) (a b : nat)
    : SouzaFrameTransf :=
  let dx := v3_sub (Crds (dom b)) (Crds (dom a)) in
  set_L (norm dx)
    (set_initialDispChecked true
      (set_nodeJInitialDisp
         (baseline (initialDispChecked s) (nodeJInitialDisp s) (Disp (dom b)))
        (set_nodeIInitialDisp
           (baseline (initialDispChecked s) (nodeIInitialDisp s) (Disp (dom a)))
          (set_dX dx
            (set_crs (crs_initialize (crs s) (Some a, Some b) dom)
              (set_nodes (Some a, Some b) s)))))).

(** The object after a successful [initialize]. *)
Definition initialize_post (dom : Domain D) (s : SouzaFrameTransf) (a b : nat)
    : SouzaFrameTransf :=
  let g := initialize_geometry dom s a b in
  let R := snd (Orient (dX g) (vz s) (R0 s)) in
  let q := from_matrix R in
  set_Q_past (q, q)
    (set_ulcommit (vec_zero (nn * ndf))
      (set_vr (v3_zero, v3_zero)
        (set_ulpr (vec_zero (nn * ndf))
          (set_ul (vec_zero (nn * ndf))
            (set_Q_pres (q, q) (set_R0 R g)))))).

(** *** The life cycle *)

(** What holds of the object from a successful [initialize] on, for nodes at
    addresses [a] and [b]: both pointers are bound, [ul] and [ulcommit] have
    their twelve entries, and the entries no method assigns a value other
    than zero are zero. *)
Definition settled (s : SouzaFrameTransf) (a b : nat) : Prop :=
  bound s a b ∧
  length (ul s) = (nn * ndf)%nat ∧ length (ulcommit s) = (nn * ndf)%nat ∧
  ∀ k, (k < nn * ndf)%nat → idle k → ul s !! k = Some d0 ∧ ulcommit s !! k = Some d0.

(** The members no method but [initialize] assigns. *)
Definition same_reference (s s' : SouzaFrameTransf) : Prop :=
  nodes s' = nodes s ∧ dX s' = dX s ∧ L s' = L s ∧ R0 s' = R0 s ∧ vz s' = vz s.

(** Column [j] of a [Matrix3D]. *)
Definition m3_col (R : Matrix3D D) (j : nat) : Vector3D D :=
  V3 (m3_at R 0 j) (m3_at R 1 j) (m3_at R 2 j).

End Accessors.

(** ** The geometric tangent *)

(** What [addTangent] calls and the file does not define: [std::tan], and
    [CrisfieldIsometry::addTangent(kg, pl, ul)], a member call on [crs] with
    [kg] passed by reference: it may change both. *)
Class TangentExternals (D : Type) `{Ext : Externals D} := {
  tan : D → D;
  crs_addTangent : Isometry → MatrixND D → VectorND D → VectorND D → Isometry * MatrixND D
}.

(** The laws of exact arithmetic that the symmetry of the added term
    needs. *)
Class ProductLaws (D : Type) `{Scalar D} : Prop := {
  dmul_comm : ∀ x y : D, (x * y)%D = (y * x)%D;
  dmul_assoc : ∀ x y z : D, (x * (y * z))%D = ((x * y) * z)%D;
  dmul_0_l : ∀ x : D, (d0 * x)%D = d0;
  dadd_0_r : ∀ x : D, (x + d0)%D = x
}.

#[global] Instance exactZ_product_laws : ProductLaws Z.
Proof. split; intros; cbn; lia. Qed.

Section Tangent.
Context {D : Type} `{Ext : Externals D} `{!TangentExternals D}.

(** [kg(i,j) += x]. *)
Definition mat_add_at (i j : nat) (x : D) (kg : MatrixND D) : MatrixND D :=
  <[i := <[j := (mat_at kg i j + x)%D]> (kg !!! i)]> kg.

(** [addTangent(kg, pl, ul)]: returns the status and the value it leaves in
    [kg].  The parameter [ul] hides the member of that name. *)
Definition addTangent (kg : MatrixND D) (pl ul' : VectorND D) : M (Z * MatrixND D) :=
  this ← get_this;
  let '(c, kg) := crs_addTangent (crs this) kg pl ul' in
  assign (set_crs c);;
  this ← get_this;
  let kg :=
    foldl (λ kg node,
      foldl (λ kg k,
        let row := ((match node with O => imx | _ => jmx end) + k)%nat in
        let factor := (pl !!! row * tan (ul' !!! row))%D in
        foldl (λ kg i,
          let Tki := mat_at (T this) row i in
          foldl (λ kg j, mat_add_at i j (Tki * factor * mat_at (T this) row j)%D kg)
                kg (seq 0 12))
          kg (seq 0 12))
        kg (seq 0 3))
      kg (seq 0 2) in
  mret (0%Z, kg).

(** A matrix of [n] rows of [m] entries. *)
Definition shape (n m : nat) (kg : MatrixND D) : Prop :=
  length kg = n ∧ Forall (λ r, length r = m) kg.

(** The rows of [T] that [addTangent] reads, in the order of its loops. *)
Definition moment_rows : list nat :=
  [(imx + 0)%nat; (imx + 1)%nat; (imx + 2)%nat; (jmx + 0)%nat; (jmx + 1)%nat; (jmx + 2)%nat].

(** The term row [r] adds to entry [(i,j)]. *)
Definition moment_term (s : SouzaFrameTransf) (pl ul' : VectorND D) (r i j : nat) : D :=
  (mat_at (T s) r i * (pl !!! r * tan (ul' !!! r)) * mat_at (T s) r j)%D.

(** Entry [(i,j)] after [addTangent], from the entry [x] the isometry
    left. *)
Definition with_moment_terms (s : SouzaFrameTransf) (pl ul' : VectorND D) (i j : nat) (x : D) : D :=
  foldl (λ acc r, (acc + moment_term s pl ul' r i j)%D) x moment_rows.

(** One pass of the loops over [i] and [j], for row [r] of [T]. *)
Definition moment_pass (s : SouzaFrameTransf) (pl ul' : VectorND D) (r : nat)
    (kg : MatrixND D) : MatrixND D :=
  foldl (λ kg i, foldl (λ kg j, mat_add_at i j (moment_term s pl ul' r i j) kg) kg (seq 0 12))
        kg (seq 0 12).

(** [kg(i,j) == kg(j,i)] for every entry. *)
Definition symmetric (kg : MatrixND D) : Prop :=
  ∀ i j, (i < nn * ndf)%nat → (j < nn * ndf)%nat → mat_at kg i j = mat_at kg j i.

End Tangent.

(** A sample of the two operations over the integers, to run [addTangent]
    on concrete matrices: the isometry adds nothing, and the identity stands
    in for the tangent function. *)
Module TangentSample.

#[global] Instance tangent_on_Z : TangentExternals Z (Ext := Sample.on_Z) := {|
  tan := λ x, x;
  crs_addTangent := λ c kg _ _, (c, kg)
|}.

(** The 12 x 12 zero matrix. *)
Definition zero12 : MatrixND Z := replicate 12 (replicate 12 0%Z).

End TangentSample.

(** ** Running the methods *)

(** Evaluates a method applied to a domain and an object. *)
Ltac eval_run :=
  repeat progress
    (unfold mbind, M_bind, mret, M_ret, get_this, get_domain, assign, opserr, deref;
     cbn -[deformed_chord dneb]).

(** Opens an object into its members, and those into their entries. *)
Ltac open_object s :=
  destruct s;
  repeat match goal with
         | q : Arr2 _ |- _ => destruct q
         | v : Vector3D _ |- _ => destruct v
         | o : option _ |- _ => destruct o
         end.

(** Evaluates [initialize], keeping the scan for initial displacements
    folded. *)
Ltac eval_init :=
  repeat progress
    (unfold mbind, M_bind, mret, M_ret, get_this, get_domain, assign, opserr, deref;
     cbn -[initial_disp]).

(** Membership in a list written out. *)
Ltac in_list := repeat first [apply list_elem_of_here | apply list_elem_of_further].

Section Runs.
Context {D : Type} `{Ext : Externals D}.

Lemma update_unbound dom (s : SouzaFrameTransf) :
  (∀ a b, nodes s ≠ (Some a, Some b)) → update dom s = None.
Proof.
  intros Hn. destruct (nodes s) as [[a|] [b|]] eqn:E;
    try (destruct s; simpl in E; subst; reflexivity).
  exfalso. by apply (Hn a b).
Qed.

Lemma update_degenerate dom (s : SouzaFrameTransf) a b :
  bound s a b →
  (norm (chord dom s a b) == d0)%D = true →
  update dom s =
    Some (DegenerateGeometryError, set_Ln (norm (chord dom s a b)) s,
          ["SouzaFrameTransf: deformed length is 0.0"]).
Proof.
  unfold bound, chord. intros Hn Hz.
  destruct s; simpl in Hn, Hz; subst.
  unfold update. eval_run. rewrite Hz. reflexivity.
Qed.

Lemma update_success dom (s : SouzaFrameTransf) a b :
  bound s a b →
  (norm (chord dom s a b) == d0)%D = false →
  update dom s = Some (OK, update_post dom s a b, []).
Proof.
  unfold bound, chord. intros Hn Hz.
  destruct s; simpl in Hn, Hz; subst.
  repeat match goal with q : Arr2 Versor |- _ => destruct q end.
  unfold update_post, compose, increment, rotation_of, write3, update.
  lazy -[deformed_chord dneb norm deqb d0 insert TrialDisp]. rewrite Hz.
  lazy -[deformed_chord dneb norm deqb d0 insert TrialDisp].
  destruct (norm _ != d0)%D; destruct (norm _ != d0)%D; reflexivity.
Qed.

(** [update] is defined on every object whose nodes are bound, and its two
    outcomes are told apart by the deformed length. *)
Lemma update_cases dom (s : SouzaFrameTransf) a b :
  bound s a b →
  ((norm (chord dom s a b) == d0)%D = true ∧
   update dom s =
     Some (DegenerateGeometryError, set_Ln (norm (chord dom s a b)) s,
           ["SouzaFrameTransf: deformed length is 0.0"])) ∨
  ((norm (chord dom s a b) == d0)%D = false ∧
   update dom s = Some (OK, update_post dom s a b, [])).
Proof.
  intros Hn. destruct (norm (chord dom s a b) == d0)%D eqn:Hz.
  - left. split; [done|]. by apply update_degenerate.
  - right. split; [done|]. by apply update_success.
Qed.

Lemma commit_run dom (s : SouzaFrameTransf) :
  commit dom s = Some (0%Z, commit_post s, []).
Proof. reflexivity. Qed.

Lemma revertToLastCommit_run dom (s : SouzaFrameTransf) a b :
  bound s a b →
  revertToLastCommit dom s =
    match update dom (revertToLastCommit_prep dom s a b) with
    | Some (_, s', out) => Some (0%Z, s', out)
    | None => None
    end.
Proof.
  unfold bound. intros Hn.
  set (p := revertToLastCommit_prep dom s a b).
  destruct s; simpl in Hn; subst.
  repeat match goal with v : Vector3D D |- _ => destruct v end.
  unfold revertToLastCommit. eval_run.
  match goal with |- context [update dom ?x] => change x with p end.
  destruct (update dom p) as [[[st s'] out]|]; [|reflexivity].
  by rewrite app_nil_r.
Qed.

Lemma revertToStart_run dom (s : SouzaFrameTransf) :
  revertToStart dom s =
    match update dom (revertToStart_prep s) with
    | Some (_, s', out) => Some (0%Z, s', out)
    | None => None
    end.
Proof.
  set (p := revertToStart_prep s).
  unfold revertToStart. eval_run.
  match goal with |- context [update dom ?x] => change x with p end.
  destruct (update dom p) as [[[st s'] out]|]; [|reflexivity].
  by rewrite app_nil_r.
Qed.

End Runs.

(** ** update *)

(** C3.  [update] returns a non-zero status exactly when the deformed length
    it has just recomputed compares equal to zero; the status is then the
    degenerate-geometry code [-2], and the committed state ([ulcommit] and
    [Q_past]) is what it was before the call. *)
Theorem update_fails_iff_zero_length {D} `{Ext : Externals D}
    (dom : Domain D) (s : SouzaFrameTransf) (a b : nat) :
  bound s a b →
  ∃ status s' out,
    update dom s = Some (status, s', out) ∧
    Ln s' = norm (chord dom s a b) ∧
    (status ≠ OK ↔ (Ln s' == d0)%D = true) ∧
    (status ≠ OK →
       status = DegenerateGeometryError ∧
       ulcommit s' = ulcommit s ∧ Q_past s' = Q_past s).
Proof.
  intros Hn. destruct (update_cases dom s a b Hn) as [[Hz ->]|[Hz ->]].
  - eexists _, _, _. split; [reflexivity|]. cbn [Ln set_Ln].
    repeat split; done.
  - eexists _, _, _. split; [reflexivity|]. cbn [Ln update_post].
    unfold chord in *. repeat split; try done; congruence.
Qed.

Lemma update_fails_iff_zero_length_witness :
  bound Sample.ready 0 1 ∧
  ∃ status s' out,
    update Sample.collapsed Sample.ready = Some (status, s', out) ∧
    Ln s' = norm (chord Sample.collapsed Sample.ready 0 1) ∧
    (status ≠ OK ↔ (Ln s' == d0)%D = true) ∧
    (status ≠ OK →
       status = DegenerateGeometryError ∧
       ulcommit s' = ulcommit Sample.ready ∧ Q_past s' = Q_past Sample.ready).
Proof.
  split; [reflexivity|].
  apply (update_fails_iff_zero_length Sample.collapsed Sample.ready 0 1). reflexivity.
Defined.

(** On the collapsed chord the call fails with [-2]; on the moved nodes it
    succeeds. *)
Example update_collapsed_status :
  fst <$> (fst <$> update Sample.collapsed Sample.ready) = Some DegenerateGeometryError ∧
  fst <$> (fst <$> update Sample.moved Sample.ready) = Some OK.
Proof. split; vm_compute; reflexivity. Qed.

(** C4.  After a successful [update] the axial entry of the node-I block is
    zero and the axial entry of the node-J block is [Ln - L]. *)
Theorem update_axial_components {D} `{Ext : Externals D}
    (dom : Domain D) (s s' : SouzaFrameTransf) (out : list string) :
  layout_ok →
  length (ul s) = (nn * ndf)%nat →
  update dom s = Some (OK, s', out) →
  ul s' !! inx = Some d0 ∧ ul s' !! jnx = Some (Ln s' - L s')%D.
Proof.
  intros (Hi & Hj & Hij) Hlen Hrun.
  destruct (nodes s) as [[a|] [b|]] eqn:Hn;
    try (rewrite update_unbound in Hrun; [done|]; intros ? ?; rewrite Hn; done).
  destruct (update_cases dom s a b Hn) as [[Hz E]|[Hz E]];
    rewrite E in Hrun; [done|].
  injection Hrun as <- <-. cbn [ul Ln L update_post]. unfold write3.
  split.
  - rewrite list_lookup_insert_ne by done.
    apply list_lookup_insert_eq. rewrite !length_insert. lia.
  - apply list_lookup_insert_eq. rewrite !length_insert. lia.
Qed.

Lemma update_axial_components_witness :
  layout_ok ∧
  length (ul Sample.ready) = (nn * ndf)%nat ∧
  update Sample.moved Sample.ready =
    Some (OK, Sample.after update Sample.moved Sample.ready, []) ∧
  ul (Sample.after update Sample.moved Sample.ready) !! inx = Some d0 ∧
  ul (Sample.after update Sample.moved Sample.ready) !! jnx =
    Some (Ln (Sample.after update Sample.moved Sample.ready) -
          L (Sample.after update Sample.moved Sample.ready))%D.
Proof.
  assert (Hl : layout_ok (Ext := Sample.on_binary64)).
  { unfold layout_ok. vm_compute. lia. }
  assert (Hr : update Sample.moved Sample.ready =
                 Some (OK, Sample.after update Sample.moved Sample.ready, []))
    by (vm_compute; reflexivity).
  assert (Hlen : length (ul Sample.ready) = (nn * ndf)%nat) by (vm_compute; reflexivity).
  split; [exact Hl|]. split; [exact Hlen|]. split; [exact Hr|].
  exact (update_axial_components Sample.moved Sample.ready _ [] Hl Hlen Hr).
Defined.

(** On the moved nodes the chord grows from 1 to 1.25: the node-J axial
    entry is 0.25 and the node-I axial entry is 0. *)
Example update_moved_axial :
  ul (Sample.after update Sample.moved Sample.ready) !! 0%nat = Some 0%float ∧
  ul (Sample.after update Sample.moved Sample.ready) !! 6%nat = Some 0.25%float.
Proof. split; vm_compute; reflexivity. Qed.

(** C2 (as amended).  A call to [update] that passes the length check
    returns [0] and performs the rotation step: each node's increment is its
    trial rotation minus the value last stored in [alphaI]/[alphaJ], the
    tracker then holds the trial rotation, and the increment is composed on
    the left of [Q_pres[i]] by the Hamilton product, only when its norm is
    not zero.  A call that fails the length check returns [-2] before the
    rotation step: [Q_pres], [alphaI] and [alphaJ] are unchanged. *)
Theorem update_rotation_step {D} `{Ext : Externals D}
    (dom : Domain D) (s : SouzaFrameTransf) (a b : nat) :
  bound s a b →
  ((norm (chord dom s a b) == d0)%D = false →
     ∃ s', update dom s = Some (OK, s', []) ∧ rotation_step dom s s' a b) ∧
  ((norm (chord dom s a b) == d0)%D = true →
     ∃ s' out, update dom s = Some (DegenerateGeometryError, s', out) ∧
       Q_pres s' = Q_pres s ∧ alphaI s' = alphaI s ∧ alphaJ s' = alphaJ s).
Proof.
  intros Hn. split; intros Hz.
  - exists (update_post dom s a b). split; [by apply update_success|].
    unfold rotation_step. cbn [alphaI alphaJ Q_pres update_post fst snd]. done.
  - eexists _, _. split; [by apply update_degenerate|]. by destruct s.
Qed.

Lemma update_rotation_step_witness :
  bound Sample.ready 0 1 ∧
  ((norm (chord Sample.moved Sample.ready 0 1) == d0)%D = false →
     ∃ s', update Sample.moved Sample.ready = Some (OK, s', []) ∧
           rotation_step Sample.moved Sample.ready s' 0 1) ∧
  ((norm (chord Sample.moved Sample.ready 0 1) == d0)%D = true →
     ∃ s' out, update Sample.moved Sample.ready = Some (DegenerateGeometryError, s', out) ∧
       Q_pres s' = Q_pres Sample.ready ∧ alphaI s' = alphaI Sample.ready ∧
       alphaJ s' = alphaJ Sample.ready).
Proof.
  split; [reflexivity|].
  apply (update_rotation_step Sample.moved Sample.ready 0 1). reflexivity.
Defined.

(** The increment stands on the left of the product: on the moved nodes,
    after a first update, turning node I further about y gives the versor
    [from_vector(dAlpha) * Q_pres[0]], which is not [Q_pres[0] *
    from_vector(dAlpha)]. *)
Example update_composes_on_the_left :
  let s1 := Sample.after update Sample.moved Sample.ready in
  let dom2 := Sample.domain [0; 0; 0; 0.5; 0.5; 0]%float [0.25; 0; 0; 0; 0; 0.25]%float in
  let dAlpha := increment (TrialDisp (dom2 0%nat)) (alphaI s1) in
  let s2 := Sample.after update dom2 s1 in
  dAlpha = V3 0%float 0.5%float 0%float ∧
  fst (Q_pres s2) = hamilton (from_vector dAlpha) (fst (Q_pres s1)) ∧
  fst (Q_pres s2) ≠ hamilton (fst (Q_pres s1)) (from_vector dAlpha).
Proof.
  cbv zeta. split; [vm_compute; reflexivity|]. split; [vm_compute; reflexivity|].
  intros E.
  apply (f_equal (λ q, PrimFloat.eqb (v2 (Sample.vector q)) (v2 (Sample.vector
    (hamilton (fst (Q_pres (Sample.after update Sample.moved Sample.ready)))
       (from_vector (V3 0%float 0.5%float 0%float))))))) in E.
  vm_compute in E. discriminate E.
Qed.

(** C2, counterexample to the claim as stated ("in every call").  With
    node J moved onto node I the deformed length is zero: the call returns
    [-2] and skips the rotation step, although node I's increment
    (0.5, 0, 0) has non-zero norm; [Q_pres[0]] is not composed with it and
    [alphaI] does not advance. *)
Lemma update_zero_length_skips_rotation :
  let dAlphaI := increment (TrialDisp (Sample.collapsed 0%nat)) (alphaI Sample.ready) in
  (∃ s' out,
     update Sample.collapsed Sample.ready = Some (DegenerateGeometryError, s', out) ∧
     (norm dAlphaI != d0)%D = true ∧
     fst (Q_pres s') = fst (Q_pres Sample.ready) ∧
     fst (Q_pres s') ≠ hamilton (from_vector dAlphaI) (fst (Q_pres Sample.ready)) ∧
     alphaI s' = alphaI Sample.ready) ∧
  ¬ (∀ status s' out,
       update Sample.collapsed Sample.ready = Some (status, s', out) →
       rotation_step Sample.collapsed Sample.ready s' 0 1).
Proof.
  cbv zeta. split.
  - exists (Sample.after update Sample.collapsed Sample.ready),
      ["SouzaFrameTransf: deformed length is 0.0"].
    split_and!; try (vm_compute; reflexivity).
    intros E. apply (f_equal (λ q, PrimFloat.eqb (Sample.scalar q) 1%float)) in E.
    vm_compute in E. discriminate E.
  - intros Hclaim.
    destruct (Hclaim DegenerateGeometryError
                (Sample.after update Sample.collapsed Sample.ready)
                ["SouzaFrameTransf: deformed length is 0.0"]) as (_ & _ & Hq & _).
    { vm_compute. reflexivity. }
    apply (f_equal (λ q, PrimFloat.eqb (Sample.scalar q) 1%float)) in Hq.
    vm_compute in Hq. discriminate Hq.
Qed.

(** ** commit and revertToLastCommit *)

Section CommitRevert.
Context {D : Type} `{Ext : Externals D}.

Lemma writes_cons j (w : D) ws u :
  writes ((j, w) :: ws) u = <[j:=w]> (writes ws u).
Proof. reflexivity. Qed.

Lemma writes_absorb ws i (v : D) u :
  <[i:=v]> (writes ws (<[i:=v]> u)) = <[i:=v]> (writes ws u).
Proof.
  induction ws as [|[j w] ws IH].
  - apply list_insert_insert_eq.
  - rewrite !writes_cons. destruct (decide (i = j)) as [->|Hij].
    + by rewrite !list_insert_insert_eq.
    + rewrite (list_insert_insert_ne (writes ws (<[i:=v]> u)) i j) by done.
      rewrite IH. by rewrite (list_insert_insert_ne (writes ws u) i j) by done.
Qed.

(** Making the same assignments twice is making them once. *)
Lemma writes_idempotent ws (u : VectorND D) : writes ws (writes ws u) = writes ws u.
Proof.
  induction ws as [|[j w] ws IH]; [done|].
  rewrite !writes_cons. by rewrite writes_absorb, IH.
Qed.

Lemma update_post_ul dom (s : SouzaFrameTransf) a b :
  ul (update_post dom s a b) = writes (local_deformations dom s a b) (ul s).
Proof. reflexivity. Qed.

Lemma compose_steady disp (q : Versor) :
  steady disp → compose (increment disp (rotation_of disp)) q = q.
Proof. unfold steady, compose, dneb. by intros ->. Qed.

(** The object handed to the inner [update] by [commit;
    revertToLastCommit], when the object came out of an [update]. *)
Lemma revert_after_update dom (s0 : SouzaFrameTransf) a b :
  steady (TrialDisp (dom a)) → steady (TrialDisp (dom b)) →
  isometry_idempotent dom →
  let s1 := update_post dom s0 a b in
  let p := revertToLastCommit_prep dom (commit_post s1) a b in
  ul (update_post dom p a b) = ul s1 ∧ Q_pres (update_post dom p a b) = Q_pres s1.
Proof.
  intros HI HJ Hidem s1 p.
  assert (HQ : Q_pres (update_post dom p a b) = Q_pres s1).
  { cbn [Q_pres update_post]. subst p s1.
    cbn [alphaI alphaJ Q_pres Q_past revertToLastCommit_prep commit_post
         set_Q_pres set_ul set_alphaI set_alphaJ set_Q_past set_ulcommit update_post fst snd].
    by rewrite !compose_steady. }
  assert (Hvr : vr (update_post dom p a b) = vr s1).
  { cbn [vr update_post]. subst p s1.
    cbn [alphaI alphaJ Q_pres Q_past crs nodes dX revertToLastCommit_prep commit_post
         set_Q_pres set_ul set_alphaI set_alphaJ set_Q_past set_ulcommit update_post fst snd].
    rewrite !compose_steady by done. by rewrite Hidem. }
  split; [|exact HQ].
  assert (Hws : local_deformations dom p a b = local_deformations dom s0 a b).
  { unfold local_deformations. rewrite Hvr. reflexivity. }
  rewrite (update_post_ul dom p a b), Hws.
  change (ul p) with (ul (update_post dom s0 a b)).
  subst s1. rewrite (update_post_ul dom s0 a b).
  apply writes_idempotent.
Qed.

End CommitRevert.

(** C5.  When the object has come out of an [update] and the nodes' trial
    displacements are what that [update] saw, [commit(); revertToLastCommit()]
    returns with [ul] and [Q_pres] exactly as they were.  The trial rotations
    are finite (their increment over themselves has zero norm), and the
    isometry keeps its contract of being idempotent on equal arguments. *)
Theorem commit_revert_preserves_trial_state {D} `{Ext : Externals D}
    (dom : Domain D) (s0 s1 : SouzaFrameTransf) (a b : nat)
    (status : Z) (out : list string) :
  bound s0 a b →
  update dom s0 = Some (status, s1, out) →
  steady (TrialDisp (dom a)) →
  steady (TrialDisp (dom b)) →
  isometry_idempotent dom →
  ∃ s2 out',
    commit_then_revert dom s1 = Some (0%Z, s2, out') ∧
    ul s2 = ul s1 ∧ Q_pres s2 = Q_pres s1.
Proof.
  intros Hn Hrun HI HJ Hidem.
  unfold commit_then_revert, mbind, M_bind. rewrite commit_run.
  assert (Hn1 : bound s1 a b).
  { destruct (update_cases dom s0 a b Hn) as [[_ E]|[_ E]];
      rewrite E in Hrun; injection Hrun as <- <- <-; by destruct s0. }
  rewrite (revertToLastCommit_run dom (commit_post s1) a b) by (by destruct s1).
  set (p := revertToLastCommit_prep dom (commit_post s1) a b).
  assert (Hp : bound p a b) by (by destruct s1).
  assert (Hc : chord dom p a b = chord dom s0 a b).
  { destruct (update_cases dom s0 a b Hn) as [[_ E]|[_ E]];
      rewrite E in Hrun; injection Hrun as <- <- <-; by destruct s0. }
  destruct (update_cases dom s0 a b Hn) as [[Hz E]|[Hz E]];
    rewrite E in Hrun; injection Hrun as <- <- <-.
  - rewrite (update_degenerate dom p a b Hp) by (by rewrite Hc).
    eexists _, _. split; [reflexivity|]. by open_object s0.
  - rewrite (update_success dom p a b Hp) by (by rewrite Hc).
    eexists _, _. split; [reflexivity|].
    by apply revert_after_update.
Qed.

Lemma commit_revert_preserves_trial_state_witness :
  let s1 := Sample.after update Sample.moved Sample.ready in
  bound Sample.ready 0 1 ∧
  update Sample.moved Sample.ready = Some (OK, s1, []) ∧
  steady (TrialDisp (Sample.moved 0%nat)) ∧
  steady (TrialDisp (Sample.moved 1%nat)) ∧
  isometry_idempotent Sample.moved ∧
  ∃ s2 out',
    commit_then_revert Sample.moved s1 = Some (0%Z, s2, out') ∧
    ul s2 = ul s1 ∧ Q_pres s2 = Q_pres s1.
Proof.
  cbv zeta.
  assert (Hn : bound Sample.ready 0 1) by reflexivity.
  assert (Hr : update Sample.moved Sample.ready =
                 Some (OK, Sample.after update Sample.moved Sample.ready, []))
    by (vm_compute; reflexivity).
  assert (HI : steady (TrialDisp (Sample.moved 0%nat))) by (vm_compute; reflexivity).
  assert (HJ : steady (TrialDisp (Sample.moved 1%nat))) by (vm_compute; reflexivity).
  assert (Hid : isometry_idempotent Sample.moved) by (intros c RI RJ dx ns; reflexivity).
  split; [exact Hn|]. split; [exact Hr|]. split; [exact HI|].
  split; [exact HJ|]. split; [exact Hid|].
  exact (commit_revert_preserves_trial_state Sample.moved Sample.ready _ 0 1 OK []
           Hn Hr HI HJ Hid).
Defined.

(** On the moved nodes: the committed and reverted object carries the local
    deformations of the update before it. *)
Example commit_revert_moved :
  let s1 := Sample.after update Sample.moved Sample.ready in
  let s2 := Sample.after commit_then_revert Sample.moved s1 in
  ul s2 = ul s1 ∧ Q_pres s2 = Q_pres s1 ∧ ul s1 !! 6%nat = Some 0.25%float.
Proof. cbv zeta. split_and!; vm_compute; reflexivity. Qed.

(** ** The reverts and the status of their inner update *)

(** C10.  [revertToStart] and [revertToLastCommit] return [0] whatever the
    nodes' state: each returns the object and the diagnostics of its inner
    [update] and drops that call's status, which is [-2] when the deformed
    length is zero. *)
Theorem reverts_return_zero {D} `{Ext : Externals D}
    (dom : Domain D) (s : SouzaFrameTransf) (a b : nat) :
  bound s a b →
  (∃ status s' out,
     update dom (revertToStart_prep s) = Some (status, s', out) ∧
     revertToStart dom s = Some (0%Z, s', out) ∧
     ((norm (chord dom s a b) == d0)%D = true → status = DegenerateGeometryError)) ∧
  (∃ status s' out,
     update dom (revertToLastCommit_prep dom s a b) = Some (status, s', out) ∧
     revertToLastCommit dom s = Some (0%Z, s', out) ∧
     ((norm (chord dom s a b) == d0)%D = true → status = DegenerateGeometryError)).
Proof.
  intros Hn. split.
  - rewrite revertToStart_run.
    assert (Hp : bound (revertToStart_prep s) a b) by (by destruct s).
    assert (Hc : chord dom (revertToStart_prep s) a b = chord dom s a b)
      by (by destruct s).
    destruct (update_cases dom _ a b Hp) as [[Hz ->]|[Hz ->]];
      eexists _, _, _; (split; [reflexivity|]); (split; [reflexivity|]);
      rewrite Hc in Hz; congruence.
  - rewrite (revertToLastCommit_run dom s a b Hn).
    assert (Hp : bound (revertToLastCommit_prep dom s a b) a b) by (by destruct s).
    assert (Hc : chord dom (revertToLastCommit_prep dom s a b) a b = chord dom s a b)
      by (by destruct s).
    destruct (update_cases dom _ a b Hp) as [[Hz ->]|[Hz ->]];
      eexists _, _, _; (split; [reflexivity|]); (split; [reflexivity|]);
      rewrite Hc in Hz; congruence.
Qed.

Lemma reverts_return_zero_witness :
  bound Sample.ready 0 1 ∧
  (∃ status s' out,
     update Sample.collapsed (revertToStart_prep Sample.ready) = Some (status, s', out) ∧
     revertToStart Sample.collapsed Sample.ready = Some (0%Z, s', out) ∧
     ((norm (chord Sample.collapsed Sample.ready 0 1) == d0)%D = true →
      status = DegenerateGeometryError)) ∧
  (∃ status s' out,
     update Sample.collapsed (revertToLastCommit_prep Sample.collapsed Sample.ready 0 1) =
       Some (status, s', out) ∧
     revertToLastCommit Sample.collapsed Sample.ready = Some (0%Z, s', out) ∧
     ((norm (chord Sample.collapsed Sample.ready 0 1) == d0)%D = true →
      status = DegenerateGeometryError)).
Proof.
  split; [reflexivity|].
  apply (reverts_return_zero Sample.collapsed Sample.ready 0 1). reflexivity.
Defined.

(** With node J moved onto node I both reverts return [0], leave [Ln = 0]
    in the object, and pass on the inner update's diagnostic. *)
Example reverts_on_collapsed_chord :
  (norm (chord Sample.collapsed Sample.ready 0 1) == d0)%D = true ∧
  revertToStart Sample.collapsed Sample.ready =
    Some (0%Z, Sample.after revertToStart Sample.collapsed Sample.ready,
          ["SouzaFrameTransf: deformed length is 0.0"]) ∧
  revertToLastCommit Sample.collapsed Sample.ready =
    Some (0%Z, Sample.after revertToLastCommit Sample.collapsed Sample.ready,
          ["SouzaFrameTransf: deformed length is 0.0"]) ∧
  Ln (Sample.after revertToLastCommit Sample.collapsed Sample.ready) = 0%float.
Proof. split_and!; vm_compute; reflexivity. Qed.

(** ** initialize *)

(** C7.  [initialize] always returns a status (it has a defined result for
    every object, domain and pair of pointers); the status is [-1] when one
    of the two node pointers is null, and [-2] when both are bound and the
    reference length computed from the node coordinates compares equal to
    zero. *)
Theorem initialize_status_codes {D} `{Ext : Externals D}
    (dom : Domain D) (s : SouzaFrameTransf) (new_nodes : Arr2 NodePtr) :
  ∃ status s' out,
    initialize new_nodes dom s = Some (status, s', out) ∧
    (fst new_nodes = None ∨ snd new_nodes = None → status = InvalidNodeError) ∧
    (∀ a b, new_nodes = (Some a, Some b) →
       (norm (v3_sub (Crds (dom b)) (Crds (dom a))) == d0)%D = true →
       status = DegenerateGeometryError ∧
       L s' = norm (v3_sub (Crds (dom b)) (Crds (dom a)))).
Proof.
  destruct new_nodes as [[a|] [b|]].
  4: { eexists _, _, _. split; [reflexivity|]. split; [done|]. intros; done. }
  3: { eexists _, _, _. split; [reflexivity|]. split; [done|]. intros; done. }
  2: { eexists _, _, _. split; [reflexivity|]. split; [done|]. intros; done. }
  destruct s. unfold initialize, commit. eval_run.
  repeat first
    [ progress eval_run
    | match goal with |- context [initial_disp ?d] => destruct (initial_disp d) eqn:? end
    | match goal with |- context [Orient ?u ?v ?R] => destruct (Orient u v R) eqn:? end
    | match goal with |- context [(?x == d0)%D] => destruct (x == d0)%D eqn:? end
    | match goal with |- context [negb ?c] => destruct c eqn:? end ].
  all: eexists _, _, _; (split; [reflexivity|]); split; [intros [?|?]; done|].
  all: intros a' b' [= <- <-] Hz; try (split; reflexivity); congruence.
Qed.

(** A null pointer gives [-1], coincident nodes give [-2], and the two
    sample nodes give [0] with [L = 1]. *)
Example initialize_on_samples :
  fst <$> (fst <$> initialize (Some 0%nat, None) Sample.at_rest Sample.fresh)
    = Some InvalidNodeError ∧
  fst <$> (fst <$> initialize (None, Some 1%nat) Sample.at_rest Sample.fresh)
    = Some InvalidNodeError ∧
  fst <$> (fst <$> initialize (Some 0%nat, Some 0%nat) Sample.at_rest Sample.fresh)
    = Some DegenerateGeometryError ∧
  initialize (Some 0%nat, Some 1%nat) Sample.at_rest Sample.fresh
    = Some (OK, Sample.ready, []) ∧
  L Sample.ready = 1%float.
Proof. split_and!; vm_compute; reflexivity. Qed.

(** ** push (force) *)

(** C6.  For every scalar type, binary64 included, the force [push] returns
    [0], writes no diagnostic, leaves the object as it was, and leaves in
    [pl] the transposed product [Tᵗ · pl] assembled as two 6-DOF groups per
    node.  In exact arithmetic this is the product of the transpose of [T]
    with [pl] summed over the twelve rows in one go; in binary64 the two
    ways of summing can round differently. *)
Theorem push_force_is_transposed_product {D} `{Ext : Externals D}
    (dom : Domain D) (s : SouzaFrameTransf) (pl : VectorND D) :
  push pl dom s = Some ((0%Z, transposed_product_by_blocks (T s) pl), s, []) ∧
  (ScalarLaws D → transposed_product_by_blocks (T s) pl = mat_vec (transpose (T s)) pl).
Proof.
  split.
  - unfold push, mbind, M_bind, mret, M_ret, get_this.
    generalize (T s) at 1 2. intros A.
    unfold transposed_product_by_blocks, sum_upto, assemble, vec_zero, mat_at, nn, ndf.
    cbn. reflexivity.
  - intros Laws. generalize (T s). intros A.
    unfold transposed_product_by_blocks, mat_vec, transpose, sum_upto, mat_at, nn, ndf.
    cbn.
    rewrite !dmul_1_r, !dadd_0_l, <- !dadd_assoc.
    reflexivity.
Qed.

Lemma push_force_is_transposed_product_witness :
  push Sample.ones Sample.at_rest Sample.withTbig =
    Some ((0%Z, transposed_product_by_blocks (T Sample.withTbig) Sample.ones),
          Sample.withTbig, []) ∧
  ScalarLaws Z ∧
  transposed_product_by_blocks (T Sample.withTz) Sample.plz =
    mat_vec (transpose (T Sample.withTz)) Sample.plz.
Proof.
  split;
    [exact (proj1 (push_force_is_transposed_product Sample.at_rest Sample.withTbig
                     Sample.ones))|].
  split; [exact exactZ_laws|].
  exact (proj2 (push_force_is_transposed_product Sample.at_rest_Z Sample.withTz Sample.plz)
           exactZ_laws).
Defined.

(** In binary64, on the matrix with [2^53], [1], [1] in rows 0, 6, 7 of
    column 0 and the vector of ones: [push] adds the group sums [2^53] and
    [2] and returns [2^53 + 2], the exact value; summing the twelve rows in
    one go rounds each [+ 1] away and gives [2^53]. *)
Example push_sums_by_groups_in_binary64 :
  Sample.outcome (push Sample.ones Sample.at_rest Sample.withTbig) =
    Some ((0%Z, 9007199254740994%float :: replicate 11 0%float), []) ∧
  mat_vec (transpose Sample.Tbig) Sample.ones = 9007199254740992%float :: replicate 11 0%float.
Proof. split; vm_compute; reflexivity. Qed.

(** With [T(r,c) = 12 r + c] and [pl(k) = k - 5], entry [c] of the result
    is [Σ_r (12 r + c)(r - 5) = 2112 + 6 c]. *)
Example push_on_integers :
  Sample.outcome (push Sample.plz Sample.at_rest_Z Sample.withTz) =
    Some ((0%Z, (λ c, (2112 + 6 * Z.of_nat c)%Z) <$> seq 0 12), []).
Proof. vm_compute. reflexivity. Qed.

(** ** getCopy *)

(** What [getCopy] assigns from the original, and what it leaves as the
    constructor made it: the trackers [alphaI], [alphaJ] are zero, the
    isometry is a new one, the initial-displacement arrays are null, and
    [dX], [ulpr], [vr], [T] are default-initialised, whatever the original
    holds. *)
Lemma getCopy_members {D} `{Ext : Externals D} (blank this : SouzaFrameTransf) :
  let theCopy := getCopy blank this in
  (tag theCopy = tag this ∧ vz theCopy = vz this ∧ offsets theCopy = offsets this ∧
   fst (nodes theCopy) = fst (nodes this) ∧ snd (nodes theCopy) = snd (nodes this) ∧
   xAxis theCopy = xAxis this ∧ L theCopy = L this ∧ Ln theCopy = Ln this ∧
   R0 theCopy = R0 this ∧
   fst (Q_pres theCopy) = fst (Q_pres this) ∧ snd (Q_pres theCopy) = snd (Q_pres this) ∧
   fst (Q_past theCopy) = fst (Q_past this) ∧ snd (Q_past theCopy) = snd (Q_past this) ∧
   ul theCopy = ul this ∧ ulcommit theCopy = ulcommit this) ∧
  (alphaI theCopy = v3_zero ∧ alphaJ theCopy = v3_zero ∧
   crs theCopy = crs_make (vz this) ∧
   nodeIInitialDisp theCopy = None ∧ nodeJInitialDisp theCopy = None ∧
   initialDispChecked theCopy = false ∧
   dX theCopy = dX blank ∧ ulpr theCopy = ulpr blank ∧
   vr theCopy = vr blank ∧ T theCopy = T blank).
Proof.
  cbv zeta. split; split_and!; try reflexivity.
  open_object this; reflexivity.
Qed.

(** C8, the code at the failing input.  The object updated on the moved
    nodes tracks node I's rotation (0.5, 0, 0) and has reference chord
    (1, 0, 0).  Its copy has the same trial versors but tracker zero, and
    its [dX] is not the original's; one more [update] on the same nodes
    leaves the original's [Q_pres[0]] alone and composes the whole rotation
    onto the copy's a second time. *)
Theorem getCopy_resets_trackers :
  let this := Sample.updated in
  let theCopy := getCopy Sample.blank64 this in
  alphaI this = V3 0.5%float 0%float 0%float ∧
  alphaI theCopy = V3 0%float 0%float 0%float ∧
  alphaI theCopy ≠ alphaI this ∧
  dX this = V3 1%float 0%float 0%float ∧
  dX theCopy = dX Sample.blank64 ∧
  dX theCopy ≠ dX this ∧
  Q_pres theCopy = Q_pres this ∧
  fst (Q_pres (Sample.after update Sample.moved this)) = fst (Q_pres this) ∧
  fst (Q_pres (Sample.after update Sample.moved theCopy)) =
    hamilton (from_vector (V3 0.5%float 0%float 0%float)) (fst (Q_pres this)) ∧
  fst (Q_pres (Sample.after update Sample.moved theCopy)) ≠ fst (Q_pres this).
Proof.
  cbv zeta. split_and!; try (vm_compute; reflexivity).
  - intros E. apply (f_equal (λ v, PrimFloat.eqb (v0 v) 0%float)) in E.
    vm_compute in E. discriminate E.
  - intros E. apply (f_equal (λ v, PrimFloat.eqb (v0 v) 0%float)) in E.
    vm_compute in E. discriminate E.
  - intros E.
    apply (f_equal (λ q, PrimFloat.eqb (Sample.scalar q)
                           (Sample.scalar (fst (Q_pres Sample.updated))))) in E.
    vm_compute in E. discriminate E.
Qed.

(** ** Sensitivity *)

(** C9 (as amended).  [getBasicDisplTotalGrad], [getBasicDisplFixedGrad] and
    [getGlobalResistingForceShapeSensitivity] are stubs: each writes a
    diagnostic, returns the one-entry dummy and leaves the object alone.
    [getLengthGrad] is implemented: with both nodes bound and sensitivity
    indices between 0 and 3 it writes no diagnostic and returns
    [1/L * dX . (dxj - dxi)]. *)
Theorem sensitivity_methods_outcome {D} `{Ext : Externals D}
    (dom : Domain D) (s : SouzaFrameTransf) (a b : nat)
    (pb p0 : VectorND D) (gradNumber : Z) :
  bound s a b →
  (0 ≤ CrdsSensitivity (dom a) ≤ 3)%Z →
  (0 ≤ CrdsSensitivity (dom b) ≤ 3)%Z →
  is_stub (getBasicDisplTotalGrad gradNumber) ∧
  is_stub getBasicDisplFixedGrad ∧
  is_stub (getGlobalResistingForceShapeSensitivity pb p0 gradNumber) ∧
  getLengthGrad dom s =
    Some ((d1 / L s * dot (dX s)
             (v3_sub (sensitivity_direction (CrdsSensitivity (dom b)))
                     (sensitivity_direction (CrdsSensitivity (dom a)))))%D, s, []).
Proof.
  intros Hn Ha Hb. split_and!; try (intros dom' s'; eexists; reflexivity).
  unfold bound in Hn. destruct s; simpl in Hn; subst.
  unfold getLengthGrad, sensitivity_direction, v3_store. eval_run.
  destruct (CrdsSensitivity (dom a) =? 0)%Z eqn:Ea;
    destruct (CrdsSensitivity (dom b) =? 0)%Z eqn:Eb; eval_run;
    repeat case_decide; try lia; reflexivity.
Qed.

Lemma sensitivity_methods_outcome_witness :
  bound Sample.ready 0 1 ∧
  (0 ≤ CrdsSensitivity (Sample.at_rest 0%nat) ≤ 3)%Z ∧
  (0 ≤ CrdsSensitivity (Sample.at_rest 1%nat) ≤ 3)%Z ∧
  is_stub (getBasicDisplTotalGrad 1) ∧
  is_stub getBasicDisplFixedGrad ∧
  is_stub (getGlobalResistingForceShapeSensitivity [] [] 1) ∧
  getLengthGrad Sample.at_rest Sample.ready =
    Some ((d1 / L Sample.ready * dot (dX Sample.ready)
             (v3_sub (sensitivity_direction (CrdsSensitivity (Sample.at_rest 1%nat)))
                     (sensitivity_direction (CrdsSensitivity (Sample.at_rest 0%nat)))))%D,
          Sample.ready, []).
Proof.
  assert (Hn : bound Sample.ready 0 1) by reflexivity.
  assert (Ha : (0 ≤ CrdsSensitivity (Sample.at_rest 0%nat) ≤ 3)%Z) by (cbn; lia).
  assert (Hb : (0 ≤ CrdsSensitivity (Sample.at_rest 1%nat) ≤ 3)%Z) by (cbn; lia).
  split; [exact Hn|]. split; [exact Ha|]. split; [exact Hb|].
  exact (sensitivity_methods_outcome Sample.at_rest Sample.ready 0 1 [] [] 1 Hn Ha Hb).
Defined.

(** C9, counterexample to the claim as stated ("every gradient method
    always fails").  On the two sample nodes, node J's first coordinate
    being the sensitivity parameter, [getLengthGrad] writes no diagnostic
    and returns the derivative of the length, 1. *)
Lemma getLengthGrad_is_implemented :
  getLengthGrad Sample.at_rest Sample.ready = Some (1%float, Sample.ready, []) ∧
  ¬ emitted_diagnostic (getLengthGrad Sample.at_rest Sample.ready).
Proof.
  assert (E : getLengthGrad Sample.at_rest Sample.ready = Some (1%float, Sample.ready, []))
    by (vm_compute; reflexivity).
  split; [exact E|].
  intros (x & s' & out & Hrun & Hout). rewrite E in Hrun.
  injection Hrun as _ _ <-. by apply Hout.
Qed.

(** ** What update leaves alone, and two updates in a row *)

Section UpdateOutcome.
Context {D : Type} `{Ext : Externals D}.

(** Every outcome of [update], as an object. *)
Lemma update_outcome dom (s : SouzaFrameTransf) status s' out :
  update dom s = Some (status, s', out) →
  ∃ a b, bound s a b ∧
    (((norm (chord dom s a b) == d0)%D = true ∧ status = DegenerateGeometryError ∧
      s' = set_Ln (norm (chord dom s a b)) s ∧
      out = ["SouzaFrameTransf: deformed length is 0.0"]) ∨
     ((norm (chord dom s a b) == d0)%D = false ∧ status = OK ∧
      s' = update_post dom s a b ∧ out = [])).
Proof.
  intros Hrun.
  destruct (nodes s) as [[a|] [b|]] eqn:Hn;
    try (rewrite update_unbound in Hrun; [done|]; intros ? ?; rewrite Hn; done).
  exists a, b. split; [done|].
  destruct (update_cases dom s a b Hn) as [[Hz E]|[Hz E]];
    rewrite E in Hrun; injection Hrun as <- <- <-; [left|right]; done.
Qed.

End UpdateOutcome.

(** Whatever its outcome, [update] leaves alone the tag, the up-vector, the
    offsets, the node pointers, [xAxis], the reference chord, length and
    triad, the initial-displacement baseline and the committed state
    ([Q_past], [ulcommit]).  A failed [update] changes nothing at all but
    [Ln]; a successful one saves the previous [ul] in [ulpr] and keeps the
    size of [ul]. *)
Theorem update_keeps_reference_and_committed_state {D} `{Ext : Externals D}
    (dom : Domain D) (s s' : SouzaFrameTransf) (status : Z) (out : list string) :
  update dom s = Some (status, s', out) →
  (tag s' = tag s ∧ vz s' = vz s ∧ offsets s' = offsets s ∧ nodes s' = nodes s ∧
   xAxis s' = xAxis s ∧ dX s' = dX s ∧ L s' = L s ∧ R0 s' = R0 s ∧
   nodeIInitialDisp s' = nodeIInitialDisp s ∧ nodeJInitialDisp s' = nodeJInitialDisp s ∧
   initialDispChecked s' = initialDispChecked s ∧
   Q_past s' = Q_past s ∧ ulcommit s' = ulcommit s) ∧
  (status ≠ OK → s' = set_Ln (Ln s') s) ∧
  (status = OK → ulpr s' = ul s ∧ length (ul s') = length (ul s)).
Proof.
  intros Hrun.
  destruct (update_outcome dom s status s' out Hrun)
    as (a & b & Hn & [(Hz & -> & -> & ->)|(Hz & -> & -> & ->)]).
  - split; [by destruct s|]. split; [by destruct s|]. done.
  - split; [done|]. split; [done|]. intros _. split; [done|].
    cbn [ul update_post]. unfold write3. by rewrite !length_insert.
Qed.

Lemma update_keeps_reference_and_committed_state_witness :
  update Sample.collapsed Sample.updated
    = Some (DegenerateGeometryError, set_Ln 0%float Sample.updated,
            ["SouzaFrameTransf: deformed length is 0.0"]) ∧
  Q_past (set_Ln 0%float Sample.updated) = Q_past Sample.updated ∧
  ulcommit (set_Ln 0%float Sample.updated) = ulcommit Sample.updated.
Proof.
  assert (H : update Sample.collapsed Sample.updated
                = Some (DegenerateGeometryError, set_Ln 0%float Sample.updated,
                        ["SouzaFrameTransf: deformed length is 0.0"]))
    by (vm_compute; reflexivity).
  split; [exact H|].
  pose proof (update_keeps_reference_and_committed_state _ _ _ _ _ H) as [Hk _].
  split; apply Hk.
Defined.

Section UpdateAgain.
Context {D : Type} `{Ext : Externals D}.

Lemma update_post_with_unused dom (s : SouzaFrameTransf) a b o xI xJ c :
  update_post dom (with_unused o xI xJ c s) a b = with_unused o xI xJ c (update_post dom s a b).
Proof. by destruct s. Qed.

(** The closed form of a second [update] under the same node state. *)
Lemma update_post_again dom (s0 : SouzaFrameTransf) a b :
  steady (TrialDisp (dom a)) → steady (TrialDisp (dom b)) →
  isometry_idempotent dom →
  let s1 := update_post dom s0 a b in
  let s2 := update_post dom s1 a b in
  ul s2 = ul s1 ∧ Q_pres s2 = Q_pres s1 ∧ vr s2 = vr s1 ∧
  alphaI s2 = alphaI s1 ∧ alphaJ s2 = alphaJ s1 ∧ ulpr s2 = ul s1.
Proof.
  intros HI HJ Hidem s1 s2.
  assert (HQ : Q_pres s2 = Q_pres s1).
  { subst s2 s1. cbn [Q_pres alphaI alphaJ update_post fst snd].
    by rewrite !compose_steady. }
  assert (Hvr : vr s2 = vr s1).
  { subst s2 s1. cbn [vr Q_pres alphaI alphaJ crs nodes dX update_post fst snd].
    rewrite !compose_steady by done. by rewrite Hidem. }
  split_and!; try done.
  assert (Hws : local_deformations dom s1 a b = local_deformations dom s0 a b).
  { unfold local_deformations. fold s2. fold s1. rewrite Hvr. reflexivity. }
  subst s2. rewrite (update_post_ul dom s1 a b), Hws.
  subst s1. rewrite (update_post_ul dom s0 a b).
  apply writes_idempotent.
Qed.

(** A second [update_post] that recomputes the same [ul], versors and
    logarithms differs from the first in [ulpr], [crs] and [T] only. *)
Lemma update_post_frame dom (s0 : SouzaFrameTransf) a b :
  let s1 := update_post dom s0 a b in
  let s2 := update_post dom s1 a b in
  ul s2 = ul s1 → Q_pres s2 = Q_pres s1 → vr s2 = vr s1 →
  s2 = set_T (T s2) (set_crs (crs s2) (set_ulpr (ul s1) s1)).
Proof.
  intros s1 s2 Hu HQ Hv.
  assert (Heta : s2 = mkTransf (tag s1) (vz s1) (offsets s1) (nodes s1) (xAxis s1) (dX s1)
                        (L s1) (Ln s1) (R0 s1) (nodeIInitialDisp s1) (nodeJInitialDisp s1)
                        (initialDispChecked s1) (crs s2) (alphaI s1) (alphaJ s1)
                        (Q_pres s2) (Q_past s1) (ul s2) (ul s1) (ulcommit s1) (vr s2) (T s2))
    by reflexivity.
  rewrite Heta at 1. rewrite Hu, HQ, Hv. reflexivity.
Qed.

End UpdateAgain.

(** [update] reads neither the rigid offsets nor the initial-displacement
    baseline. *)
Theorem update_ignores_offsets_and_baseline {D} `{Ext : Externals D}
    (dom : Domain D) (s : SouzaFrameTransf)
    (o : option (Arr2 (Vector3D D))) (xI xJ : option (list D)) (checked : bool) :
  update dom (with_unused o xI xJ checked s) =
    on_object (with_unused o xI xJ checked) (update dom s).
Proof.
  destruct (nodes s) as [[a|] [b|]] eqn:Hn.
  2-4: rewrite !update_unbound; [done| |];
       intros ? ?; try rewrite Hn; by destruct s; simpl in *; subst.
  assert (Hn' : bound (with_unused o xI xJ checked s) a b) by (by destruct s).
  assert (Hc : chord dom (with_unused o xI xJ checked s) a b = chord dom s a b)
    by (by destruct s).
  destruct (update_cases dom s a b Hn) as [[Hz ->]|[Hz ->]].
  - rewrite (update_degenerate dom _ a b Hn') by (by rewrite Hc).
    rewrite Hc. cbn [on_object]. by destruct s.
  - rewrite (update_success dom _ a b Hn') by (by rewrite Hc).
    cbn [on_object]. by rewrite update_post_with_unused.
Qed.

(** A second [update] under the same node state has the status and the
    diagnostics of the first and leaves [ul], the trial versors, the rotation
    logarithms, [Ln] and the trackers as the first left them, when the trial
    rotations are finite and the isometry is idempotent on equal arguments.
    After a failure the object is the same.  After a success the object is
    the first call's but for three members: [ulpr], which moves on to [ul],
    and the isometry [crs] and the tangent [T], which the isometry computes
    anew and may change. *)
Theorem update_twice {D} `{Ext : Externals D}
    (dom : Domain D) (s0 s1 : SouzaFrameTransf) (a b : nat)
    (status : Z) (out : list string) :
  bound s0 a b →
  update dom s0 = Some (status, s1, out) →
  steady (TrialDisp (dom a)) →
  steady (TrialDisp (dom b)) →
  isometry_idempotent dom →
  ∃ s2,
    update dom s1 = Some (status, s2, out) ∧
    ul s2 = ul s1 ∧ Q_pres s2 = Q_pres s1 ∧ vr s2 = vr s1 ∧ Ln s2 = Ln s1 ∧
    alphaI s2 = alphaI s1 ∧ alphaJ s2 = alphaJ s1 ∧
    (status ≠ OK → s2 = s1) ∧
    (status = OK → s2 = set_T (T s2) (set_crs (crs s2) (set_ulpr (ul s1) s1))).
Proof.
  intros Hn Hrun HI HJ Hidem.
  destruct (update_cases dom s0 a b Hn) as [[Hz E]|[Hz E]];
    rewrite E in Hrun; injection Hrun as <- <- <-.
  - assert (Hn1 : bound (set_Ln (norm (chord dom s0 a b)) s0) a b) by (by destruct s0).
    assert (Hc : chord dom (set_Ln (norm (chord dom s0 a b)) s0) a b = chord dom s0 a b)
      by (by destruct s0).
    rewrite (update_degenerate dom _ a b Hn1) by (by rewrite Hc).
    eexists. split; [reflexivity|]. rewrite Hc. split_and!; try done; by destruct s0.
  - assert (Hn1 : bound (update_post dom s0 a b) a b) by (by destruct s0).
    assert (Hc : chord dom (update_post dom s0 a b) a b = chord dom s0 a b)
      by (by destruct s0).
    rewrite (update_success dom _ a b Hn1) by (by rewrite Hc).
    eexists. split; [reflexivity|].
    destruct (update_post_again dom s0 a b HI HJ Hidem) as (Hu & HQ & Hv & ? & ? & ?).
    split_and!; try done.
    intros _. by apply update_post_frame.
Qed.

Lemma update_twice_witness :
  bound Sample.ready 0 1 ∧
  update Sample.moved Sample.ready = Some (OK, Sample.updated, []) ∧
  steady (TrialDisp (Sample.moved 0%nat)) ∧
  steady (TrialDisp (Sample.moved 1%nat)) ∧
  isometry_idempotent Sample.moved ∧
  ∃ s2,
    update Sample.moved Sample.updated = Some (OK, s2, []) ∧
    ul s2 = ul Sample.updated ∧ Q_pres s2 = Q_pres Sample.updated.
Proof.
  assert (Hn : bound Sample.ready 0 1) by reflexivity.
  assert (Hr : update Sample.moved Sample.ready = Some (OK, Sample.updated, []))
    by (vm_compute; reflexivity).
  assert (HI : steady (TrialDisp (Sample.moved 0%nat))) by (vm_compute; reflexivity).
  assert (HJ : steady (TrialDisp (Sample.moved 1%nat))) by (vm_compute; reflexivity).
  assert (Hid : isometry_idempotent Sample.moved) by (intros c RI RJ dx ns; reflexivity).
  split; [exact Hn|]. split; [exact Hr|]. split; [exact HI|].
  split; [exact HJ|]. split; [exact Hid|].
  destruct (update_twice Sample.moved Sample.ready Sample.updated 0 1 OK []
              Hn Hr HI HJ Hid) as (s2 & H2 & Hu & HQ & _).
  exists s2. split; [exact H2|]. split; [exact Hu|exact HQ].
Defined.

(** Two successful updates under node states [dom1] then [dom2]: the second
    increment is measured from the first call's trial rotation, and the two
    increments are composed in turn on the left of the versor. *)
Theorem update_increments_compose {D} `{Ext : Externals D}
    (dom1 dom2 : Domain D) (s0 s1 s2 : SouzaFrameTransf) (a b : nat)
    (out1 out2 : list string) :
  bound s0 a b →
  update dom1 s0 = Some (OK, s1, out1) →
  update dom2 s1 = Some (OK, s2, out2) →
  fst (Q_pres s2) =
    compose (increment (TrialDisp (dom2 a)) (rotation_of (TrialDisp (dom1 a))))
      (compose (increment (TrialDisp (dom1 a)) (alphaI s0)) (fst (Q_pres s0))) ∧
  snd (Q_pres s2) =
    compose (increment (TrialDisp (dom2 b)) (rotation_of (TrialDisp (dom1 b))))
      (compose (increment (TrialDisp (dom1 b)) (alphaJ s0)) (snd (Q_pres s0))).
Proof.
  intros Hn H1 H2.
  destruct (update_cases dom1 s0 a b Hn) as [[Hz E]|[Hz E]];
    rewrite E in H1; [done|]. injection H1 as <- <-.
  assert (Hn1 : bound (update_post dom1 s0 a b) a b) by (by destruct s0).
  destruct (update_cases dom2 _ a b Hn1) as [[Hz2 E2]|[Hz2 E2]];
    rewrite E2 in H2; [done|]. injection H2 as <- <-.
  split; reflexivity.
Qed.

Lemma update_increments_compose_witness :
  bound Sample.ready 0 1 ∧
  update Sample.moved Sample.ready = Some (OK, Sample.updated, []) ∧
  update Sample.at_rest Sample.updated
    = Some (OK, Sample.after update Sample.at_rest Sample.updated, []) ∧
  fst (Q_pres (Sample.after update Sample.at_rest Sample.updated)) =
    compose (increment (TrialDisp (Sample.at_rest 0%nat))
                       (rotation_of (TrialDisp (Sample.moved 0%nat))))
      (compose (increment (TrialDisp (Sample.moved 0%nat)) (alphaI Sample.ready))
               (fst (Q_pres Sample.ready))).
Proof.
  assert (Hn : bound Sample.ready 0 1) by reflexivity.
  assert (H1 : update Sample.moved Sample.ready = Some (OK, Sample.updated, []))
    by (vm_compute; reflexivity).
  assert (H2 : update Sample.at_rest Sample.updated
                 = Some (OK, Sample.after update Sample.at_rest Sample.updated, []))
    by (vm_compute; reflexivity).
  split; [exact Hn|]. split; [exact H1|]. split; [exact H2|].
  exact (proj1 (update_increments_compose Sample.moved Sample.at_rest Sample.ready
                  Sample.updated _ 0 1 [] [] Hn H1 H2)).
Defined.

(** After a successful [update], [getStateVariation] returns the change of
    [ul] made by that call, entry by entry. *)
Theorem getStateVariation_after_update {D} `{Ext : Externals D}
    (dom : Domain D) (s s' : SouzaFrameTransf) (out : list string) :
  update dom s = Some (OK, s', out) →
  getStateVariation dom s' = Some (vec_sub (ul s') (ul s), s', []) ∧
  length (vec_sub (ul s') (ul s)) = length (ul s).
Proof.
  intros Hrun.
  destruct (update_outcome dom s OK s' out Hrun)
    as (a & b & Hn & [(Hz & ? & -> & ->)|(Hz & _ & -> & ->)]); [done|].
  split; [reflexivity|].
  unfold vec_sub. rewrite length_zip_with. cbn [ul update_post]. unfold write3.
  rewrite !length_insert. lia.
Qed.

Lemma getStateVariation_after_update_witness :
  update Sample.moved Sample.ready = Some (OK, Sample.updated, []) ∧
  getStateVariation Sample.moved Sample.updated
    = Some (vec_sub (ul Sample.updated) (ul Sample.ready), Sample.updated, []).
Proof.
  assert (H1 : update Sample.moved Sample.ready = Some (OK, Sample.updated, []))
    by (vm_compute; reflexivity).
  split; [exact H1|].
  exact (proj1 (getStateVariation_after_update Sample.moved Sample.ready Sample.updated [] H1)).
Defined.

(** After a successful [update] under a disjoint index layout, the two
    rotation blocks of [ul] hold the entries of the nodal rotation
    logarithms that [getNodeRotationLogarithm] returns. *)
Theorem update_rotation_blocks {D} `{Ext : Externals D}
    (dom : Domain D) (s s' : SouzaFrameTransf) (out : list string) :
  layout_disjoint →
  length (ul s) = (nn * ndf)%nat →
  update dom s = Some (OK, s', out) →
  ∃ rI rJ,
    getNodeRotationLogarithm 0 dom s' = Some (rI, s', []) ∧
    getNodeRotationLogarithm 1 dom s' = Some (rJ, s', []) ∧
    ul s' !! imx = Some (v0 rI) ∧ ul s' !! (imx + 1)%nat = Some (v1 rI) ∧
    ul s' !! (imx + 2)%nat = Some (v2 rI) ∧
    ul s' !! jmx = Some (v0 rJ) ∧ ul s' !! (jmx + 1)%nat = Some (v1 rJ) ∧
    ul s' !! (jmx + 2)%nat = Some (v2 rJ).
Proof.
  intros [Hnd Hlt] Hlen Hrun.
  destruct (update_outcome dom s OK s' out Hrun)
    as (a & b & Hn & [(Hz & ? & -> & ->)|(Hz & _ & -> & ->)]); [done|].
  eexists _, _. split; [reflexivity|]. split; [reflexivity|].
  cbn [ul vr update_post fst snd arr_get]. unfold write3.
  rewrite !Nat.add_0_r.
  repeat match goal with H : NoDup (_ :: _) |- _ => apply NoDup_cons in H as [? ?] end.
  repeat match goal with H : Forall _ (_ :: _) |- _ => apply Forall_cons in H as [? ?] end.
  repeat match goal with H : _ ∉ _ :: _ |- _ => apply not_elem_of_cons in H as [? ?] end.
  split_and!.
  all: repeat (rewrite list_lookup_insert_ne by done).
  all: apply list_lookup_insert_eq; rewrite ?length_insert; lia.
Qed.

Lemma update_rotation_blocks_witness :
  layout_disjoint (Ext := Sample.on_binary64) ∧
  length (ul Sample.ready) = (nn * ndf)%nat ∧
  update Sample.moved Sample.ready = Some (OK, Sample.updated, []) ∧
  ∃ rI rJ,
    getNodeRotationLogarithm 0 Sample.moved Sample.updated = Some (rI, Sample.updated, []) ∧
    getNodeRotationLogarithm 1 Sample.moved Sample.updated = Some (rJ, Sample.updated, []) ∧
    ul Sample.updated !! imx = Some (v0 rI) ∧
    ul Sample.updated !! (imx + 1)%nat = Some (v1 rI) ∧
    ul Sample.updated !! (imx + 2)%nat = Some (v2 rI) ∧
    ul Sample.updated !! jmx = Some (v0 rJ) ∧
    ul Sample.updated !! (jmx + 1)%nat = Some (v1 rJ) ∧
    ul Sample.updated !! (jmx + 2)%nat = Some (v2 rJ).
Proof.
  assert (H0 : layout_disjoint (Ext := Sample.on_binary64)).
  { split; [apply (bool_decide_unpack _); vm_compute; reflexivity|].
    repeat apply Forall_cons_2; [..|apply Forall_nil_2]; vm_compute; lia. }
  assert (Hl : length (ul Sample.ready) = (nn * ndf)%nat) by (vm_compute; reflexivity).
  assert (H1 : update Sample.moved Sample.ready = Some (OK, Sample.updated, []))
    by (vm_compute; reflexivity).
  split; [exact H0|]. split; [exact Hl|]. split; [exact H1|].
  exact (update_rotation_blocks Sample.moved Sample.ready Sample.updated [] H0 Hl H1).
Defined.

(** ** What initialize establishes *)

Section InitializeRuns.
Context {D : Type} `{Ext : Externals D}.

Lemma initialize_bound_run dom (s : SouzaFrameTransf) a b :
  let g := initialize_geometry dom s a b in
  let o := Orient (dX g) (vz s) (R0 s) in
  initialize (Some a, Some b) dom s =
    Some (if (L g == d0)%D
          then (DegenerateGeometryError, g,
                ["SouzaFrameTransf::computeElemtLengthAndOrien: 0 length"])
          else if negb (fst o =? 0)%Z then (fst o, set_R0 (snd o) g, [])
          else (OK, initialize_post dom s a b, [])).
Proof.
  cbv zeta. unfold initialize_post, initialize_geometry, baseline.
  destruct s. cbn -[initial_disp].
  unfold initialize, commit. eval_init.
  repeat first
    [ progress eval_init
    | match goal with |- context [initial_disp ?d] => destruct (initial_disp d) eqn:? end
    | match goal with |- context [Orient ?u ?v ?R] => destruct (Orient u v R) eqn:? end
    | match goal with |- context [(?x == d0)%D] => destruct (x == d0)%D eqn:? end
    | match goal with |- context [(?x =? 0)%Z] => destruct (x =? 0)%Z eqn:? end
    | match goal with |- context [negb ?c] => destruct c eqn:? end ].
  all: simplify_eq/=.
  all: first [congruence | vm_compute; reflexivity].
Qed.

Lemma initialize_null_run dom (s : SouzaFrameTransf) (new_nodes : Arr2 NodePtr) :
  fst new_nodes = None ∨ snd new_nodes = None →
  initialize new_nodes dom s =
    Some (InvalidNodeError,
          set_nodes (match fst new_nodes with
                     | Some a => (Some a, None)
                     | None => (None, snd (nodes s))
                     end) s,
          ["invalid pointers to the element nodes"]).
Proof.
  destruct new_nodes as [[a|] [b|]]; intros [?|?]; try done; reflexivity.
Qed.

End InitializeRuns.

(** [initialize] returns [-1] for a null pointer, [-2] for a zero reference
    length, the error code of [Orient] as it is when [Orient] fails, and [0]
    otherwise. *)
Theorem initialize_returns_status {D} `{Ext : Externals D}
    (dom : Domain D) (s : SouzaFrameTransf) (new_nodes : Arr2 NodePtr) :
  ∃ s' out, initialize new_nodes dom s = Some (initialize_status dom s new_nodes, s', out).
Proof.
  destruct new_nodes as [[a|] [b|]].
  2-4: eexists _, _; apply (initialize_null_run dom s); cbn; auto.
  assert (Hd : dX (initialize_geometry dom s a b) = v3_sub (Crds (dom b)) (Crds (dom a)))
    by (by destruct s).
  assert (HL : L (initialize_geometry dom s a b) = norm (v3_sub (Crds (dom b)) (Crds (dom a))))
    by (by destruct s).
  unfold initialize_status. rewrite <- HL, <- Hd.
  rewrite initialize_bound_run. cbv zeta.
  destruct (L _ == d0)%D; [eexists _, _; reflexivity|].
  destruct (fst _ =? 0)%Z eqn:E; cbn [negb]; [|eexists _, _; reflexivity].
  apply Z.eqb_eq in E. rewrite E. eexists _, _; reflexivity.
Qed.

(** A successful [initialize] binds the two nodes, stores the reference
    chord and its non-zero length, sets both trial and both committed versors
    to the versor of [R0], zeroes [ul], [ulpr], [ulcommit] and [vr], and marks
    the initial displacements as checked.  It leaves [alphaI], [alphaJ], [Ln]
    and [T] as they were. *)
Theorem initialize_establishes_committed_state {D} `{Ext : Externals D}
    (dom : Domain D) (s s' : SouzaFrameTransf) (new_nodes : Arr2 NodePtr)
    (out : list string) :
  initialize new_nodes dom s = Some (OK, s', out) →
  ∃ a b,
    new_nodes = (Some a, Some b) ∧ nodes s' = (Some a, Some b) ∧ out = [] ∧
    dX s' = v3_sub (Crds (dom b)) (Crds (dom a)) ∧
    L s' = norm (dX s') ∧ (L s' == d0)%D = false ∧
    Orient (dX s') (vz s) (R0 s) = (0%Z, R0 s') ∧
    Q_pres s' = (from_matrix (R0 s'), from_matrix (R0 s')) ∧
    Q_past s' = Q_pres s' ∧
    ul s' = vec_zero (nn * ndf) ∧ ulpr s' = vec_zero (nn * ndf) ∧
    ulcommit s' = ul s' ∧ vr s' = (v3_zero, v3_zero) ∧
    initialDispChecked s' = true ∧
    alphaI s' = alphaI s ∧ alphaJ s' = alphaJ s ∧ Ln s' = Ln s ∧ T s' = T s.
Proof.
  intros Hrun. destruct new_nodes as [[a|] [b|]].
  2-4: rewrite (initialize_null_run dom s) in Hrun by (cbn; auto); done.
  exists a, b. rewrite initialize_bound_run in Hrun.
  destruct (L (initialize_geometry dom s a b) == d0)%D eqn:EZ; [done|].
  destruct (Orient (dX (initialize_geometry dom s a b)) (vz s) (R0 s)) as [z m] eqn:EO.
  cbn [fst snd] in Hrun.
  destruct (z =? 0)%Z eqn:Ez; cbn [negb] in Hrun; [|injection Hrun as -> _ _; done].
  apply Z.eqb_eq in Ez. subst z. injection Hrun as <- <-.
  unfold initialize_post. cbv zeta. rewrite EO. cbn [snd].
  assert (Hd : dX (initialize_geometry dom s a b) = v3_sub (Crds (dom b)) (Crds (dom a)))
    by (destruct s; reflexivity).
  rewrite Hd in EO. clear Hd. destruct s. cbn in EZ, EO |- *.
  split_and!; first [reflexivity | assumption].
Qed.

Lemma initialize_establishes_committed_state_witness :
  initialize (Some 0%nat, Some 1%nat) Sample.at_rest Sample.fresh
    = Some (OK, Sample.ready, []) ∧
  Q_past Sample.ready = Q_pres Sample.ready ∧
  ul Sample.ready = vec_zero (nn * ndf) ∧
  ulcommit Sample.ready = ul Sample.ready.
Proof.
  assert (H : initialize (Some 0%nat, Some 1%nat) Sample.at_rest Sample.fresh
                = Some (OK, Sample.ready, [])) by (vm_compute; reflexivity).
  split; [exact H|].
  destruct (initialize_establishes_committed_state _ _ _ _ _ H)
    as (a & b & _ & _ & _ & _ & _ & _ & _ & _ & HQ & Hu & _ & Hc & _).
  split; [exact HQ|]. split; [exact Hu|exact Hc].
Defined.

(** A failed [initialize] leaves the trial and the committed state alone;
    with a null pointer it changes nothing but [nodes], where entry 0 is
    already overwritten; with two bound nodes it has already rebound the
    nodes, stored the chord and the length, and marked the initial
    displacements as checked. *)
Theorem initialize_failure_effects {D} `{Ext : Externals D}
    (dom : Domain D) (s s' : SouzaFrameTransf) (new_nodes : Arr2 NodePtr)
    (status : Z) (out : list string) :
  initialize new_nodes dom s = Some (status, s', out) →
  status ≠ OK →
  (Q_pres s' = Q_pres s ∧ Q_past s' = Q_past s ∧ ul s' = ul s ∧ ulpr s' = ulpr s ∧
   ulcommit s' = ulcommit s ∧ vr s' = vr s ∧ alphaI s' = alphaI s ∧
   alphaJ s' = alphaJ s ∧ Ln s' = Ln s ∧ T s' = T s) ∧
  (fst new_nodes = None ∨ snd new_nodes = None →
     s' = set_nodes (nodes s') s ∧ fst (nodes s') = fst new_nodes) ∧
  (∀ a b, new_nodes = (Some a, Some b) →
     nodes s' = new_nodes ∧ dX s' = v3_sub (Crds (dom b)) (Crds (dom a)) ∧
     L s' = norm (dX s') ∧ initialDispChecked s' = true).
Proof.
  intros Hrun Hst. destruct new_nodes as [[a|] [b|]].
  2-4: rewrite (initialize_null_run dom s) in Hrun by (cbn; auto);
       injection Hrun as <- <- <-;
       (split; [destruct s; split_and!; reflexivity|]);
       (split; [intros _; destruct s; split; reflexivity|]); intros; done.
  rewrite initialize_bound_run in Hrun.
  destruct (L (initialize_geometry dom s a b) == d0)%D eqn:EZ.
  - injection Hrun as <- <- <-. split; [destruct s; split_and!; reflexivity|].
    split; [intros [?|?]; done|].
    intros ? ? [= <- <-]. destruct s; split_and!; reflexivity.
  - destruct (negb _) eqn:En; [|by injection Hrun as <- _ _].
    injection Hrun as <- <- <-. split; [destruct s; split_and!; reflexivity|].
    split; [intros [?|?]; done|].
    intros ? ? [= <- <-]. destruct s; split_and!; reflexivity.
Qed.

Lemma initialize_failure_effects_witness :
  let s' := Sample.after (initialize (Some 0%nat, Some 0%nat)) Sample.at_rest Sample.ready in
  initialize (Some 0%nat, Some 0%nat) Sample.at_rest Sample.ready
    = Some (DegenerateGeometryError, s',
            ["SouzaFrameTransf::computeElemtLengthAndOrien: 0 length"]) ∧
  DegenerateGeometryError ≠ OK ∧
  Q_pres s' = Q_pres Sample.ready ∧ ul s' = ul Sample.ready ∧
  nodes s' = (Some 0%nat, Some 0%nat) ∧ L s' = norm (dX s').
Proof.
  cbv zeta.
  assert (H : initialize (Some 0%nat, Some 0%nat) Sample.at_rest Sample.ready
                = Some (DegenerateGeometryError,
                        Sample.after (initialize (Some 0%nat, Some 0%nat))
                                     Sample.at_rest Sample.ready,
                        ["SouzaFrameTransf::computeElemtLengthAndOrien: 0 length"]))
    by (vm_compute; reflexivity).
  assert (Hne : DegenerateGeometryError ≠ OK) by done.
  split; [exact H|]. split; [exact Hne|].
  destruct (initialize_failure_effects _ _ _ _ _ _ H Hne)
    as ((HQ & _ & Hu & _) & _ & Hb).
  destruct (Hb 0%nat 0%nat eq_refl) as (Hn & _ & HL & _).
  split; [exact HQ|]. split; [exact Hu|]. split; [exact Hn|exact HL].
Defined.

(** The scan for initial displacements runs at the first [initialize] that
    gets past the node check, even one that then fails, and never again:
    once [initialDispChecked] the two arrays stay as they are, whatever the
    nodes' committed displacements. *)
Theorem initialize_checks_baseline_once {D} `{Ext : Externals D}
    (dom : Domain D) (s : SouzaFrameTransf) (a b : nat) :
  ∃ status s' out,
    initialize (Some a, Some b) dom s = Some (status, s', out) ∧
    initialDispChecked s' = true ∧
    (initialDispChecked s = true →
       nodeIInitialDisp s' = nodeIInitialDisp s ∧
       nodeJInitialDisp s' = nodeJInitialDisp s) ∧
    (initialDispChecked s = false →
       nodeIInitialDisp s' = match initial_disp (Disp (dom a)) with
                             | Some x => Some x
                             | None => nodeIInitialDisp s
                             end ∧
       nodeJInitialDisp s' = match initial_disp (Disp (dom b)) with
                             | Some x => Some x
                             | None => nodeJInitialDisp s
                             end).
Proof.
  rewrite initialize_bound_run.
  destruct (L _ == d0)%D; [|destruct (negb _)]; eexists _, _, _;
    (split; [reflexivity|]); (split; [by destruct s|]);
    split; intros Hc; unfold initialize_post, initialize_geometry, baseline;
    destruct s; simpl in Hc; subst; done.
Qed.

(** ** What the reverts restore *)

(** [revertToLastCommit] always ends with the committed versors as the
    trial versors, whatever the nodes' trial displacements (their increment
    is measured from the trackers it has just reset), and leaves the
    committed state alone.  [ul] is the committed [ul] only when the inner
    update fails; otherwise it is recomputed from the node state, and [ulpr]
    is the committed [ul]. *)
Theorem revertToLastCommit_restores_rotations {D} `{Ext : Externals D}
    (dom : Domain D) (s : SouzaFrameTransf) (a b : nat) :
  bound s a b →
  steady (TrialDisp (dom a)) →
  steady (TrialDisp (dom b)) →
  ∃ s' out,
    revertToLastCommit dom s = Some (0%Z, s', out) ∧
    fst (Q_pres s') = fst (Q_past s) ∧ snd (Q_pres s') = snd (Q_past s) ∧
    Q_past s' = Q_past s ∧ ulcommit s' = ulcommit s ∧
    alphaI s' = rotation_of (TrialDisp (dom a)) ∧
    alphaJ s' = rotation_of (TrialDisp (dom b)) ∧
    ((norm (chord dom s a b) == d0)%D = true → ul s' = ulcommit s ∧ ulpr s' = ulpr s) ∧
    ((norm (chord dom s a b) == d0)%D = false → ulpr s' = ulcommit s).
Proof.
  intros Hn HI HJ. rewrite (revertToLastCommit_run dom s a b Hn).
  assert (Hp : bound (revertToLastCommit_prep dom s a b) a b) by (by destruct s).
  assert (Hc : chord dom (revertToLastCommit_prep dom s a b) a b = chord dom s a b)
    by (by destruct s).
  destruct (update_cases dom _ a b Hp) as [[Hz ->]|[Hz ->]]; rewrite Hc in Hz.
  - eexists _, _. split; [reflexivity|].
    split_and!; try (by destruct s); congruence.
  - eexists _, _. split; [reflexivity|].
    cbn [Q_pres Q_past ulcommit alphaI alphaJ ulpr update_post fst snd].
    replace (alphaI (revertToLastCommit_prep dom s a b))
      with (rotation_of (TrialDisp (dom a))) by (by destruct s).
    replace (alphaJ (revertToLastCommit_prep dom s a b))
      with (rotation_of (TrialDisp (dom b))) by (by destruct s).
    rewrite !compose_steady by done.
    split_and!; try (by destruct s); congruence.
Qed.

Lemma revertToLastCommit_restores_rotations_witness :
  bound Sample.updated 0 1 ∧
  steady (TrialDisp (Sample.moved 0%nat)) ∧
  steady (TrialDisp (Sample.moved 1%nat)) ∧
  ∃ s' out,
    revertToLastCommit Sample.moved Sample.updated = Some (0%Z, s', out) ∧
    fst (Q_pres s') = fst (Q_past Sample.updated) ∧
    snd (Q_pres s') = snd (Q_past Sample.updated) ∧
    Q_past s' = Q_past Sample.updated.
Proof.
  assert (Hn : bound Sample.updated 0 1) by reflexivity.
  assert (HI : steady (TrialDisp (Sample.moved 0%nat))) by (vm_compute; reflexivity).
  assert (HJ : steady (TrialDisp (Sample.moved 1%nat))) by (vm_compute; reflexivity).
  split; [exact Hn|]. split; [exact HI|]. split; [exact HJ|].
  destruct (revertToLastCommit_restores_rotations Sample.moved Sample.updated 0 1 Hn HI HJ)
    as (s' & out & Hr & H1 & H2 & H3 & _).
  exists s', out. split; [exact Hr|]. split; [exact H1|]. split; [exact H2|exact H3].
Defined.

(** [revertToStart] leaves the committed state as it is.  When the inner
    update fails, the trial versors are the versor of [R0], [ul] is zero and
    the trackers are zero; otherwise the nodes' whole trial rotations are
    composed onto the versor of [R0] and the trackers hold them. *)
Theorem revertToStart_effects {D} `{Ext : Externals D}
    (dom : Domain D) (s : SouzaFrameTransf) (a b : nat) :
  bound s a b →
  ∃ s' out,
    revertToStart dom s = Some (0%Z, s', out) ∧
    Q_past s' = Q_past s ∧ ulcommit s' = ulcommit s ∧
    ((norm (chord dom s a b) == d0)%D = true →
       Q_pres s' = (from_matrix (R0 s), from_matrix (R0 s)) ∧
       ul s' = vec_zero (nn * ndf) ∧ alphaI s' = v3_zero ∧ alphaJ s' = v3_zero) ∧
    ((norm (chord dom s a b) == d0)%D = false →
       fst (Q_pres s') =
         compose (increment (TrialDisp (dom a)) v3_zero) (from_matrix (R0 s)) ∧
       snd (Q_pres s') =
         compose (increment (TrialDisp (dom b)) v3_zero) (from_matrix (R0 s)) ∧
       alphaI s' = rotation_of (TrialDisp (dom a)) ∧
       alphaJ s' = rotation_of (TrialDisp (dom b)) ∧
       ulpr s' = vec_zero (nn * ndf)).
Proof.
  intros Hn. rewrite revertToStart_run.
  assert (Hp : bound (revertToStart_prep s) a b) by (by destruct s).
  assert (Hc : chord dom (revertToStart_prep s) a b = chord dom s a b) by (by destruct s).
  destruct (update_cases dom _ a b Hp) as [[Hz ->]|[Hz ->]]; rewrite Hc in Hz.
  - eexists _, _. split; [reflexivity|].
    split_and!; try (by destruct s); try congruence.
    all: intros _; by destruct s.
  - eexists _, _. split; [reflexivity|].
    split_and!; try (by destruct s); try congruence.
    all: intros _; by destruct s.
Qed.

Lemma revertToStart_effects_witness :
  bound Sample.updated 0 1 ∧
  ∃ s' out,
    revertToStart Sample.collapsed Sample.updated = Some (0%Z, s', out) ∧
    Q_past s' = Q_past Sample.updated ∧ ulcommit s' = ulcommit Sample.updated.
Proof.
  assert (Hn : bound Sample.updated 0 1) by reflexivity.
  split; [exact Hn|].
  destruct (revertToStart_effects Sample.collapsed Sample.updated 0 1 Hn)
    as (s' & out & Hr & H1 & H2 & _).
  exists s', out. split; [exact Hr|]. split; [exact H1|exact H2].
Defined.

(** ** The life cycle of an initialised object *)

Section LifeCycle.
Context {D : Type} `{Ext : Externals D}.

Lemma write3_length at' (v : Vector3D D) (u : VectorND D) :
  length (write3 at' v u) = length u.
Proof. unfold write3. by rewrite !length_insert. Qed.

Lemma write3_idle at' (v : Vector3D D) (u : VectorND D) k :
  k ∉ [at'; (at' + 1)%nat; (at' + 2)%nat] → write3 at' v u !! k = u !! k.
Proof.
  intros Hk. unfold write3. rewrite Nat.add_0_r.
  rewrite !list_lookup_insert_ne; [done|..]; intros <-; apply Hk; in_list.
Qed.

Lemma update_post_length dom (s : SouzaFrameTransf) a b :
  length (ul (update_post dom s a b)) = length (ul s).
Proof. cbn [ul update_post]. by rewrite !length_insert, !write3_length. Qed.

Lemma update_post_idle dom (s : SouzaFrameTransf) a b k :
  idle k → (k < length (ul s))%nat → ul s !! k = Some d0 →
  ul (update_post dom s a b) !! k = Some d0.
Proof.
  unfold idle. intros Hk Hlt Hu. cbn [ul update_post].
  rewrite list_lookup_insert_ne by (intros <-; apply Hk; in_list).
  destruct (decide (inx = k)) as [<-|Hne].
  - apply list_lookup_insert_eq. by rewrite !write3_length.
  - rewrite list_lookup_insert_ne by done.
    rewrite !write3_idle; [done|..]; intros Hin; apply Hk;
      rewrite !elem_of_cons in Hin; rewrite !elem_of_cons; tauto.
Qed.

Lemma update_settled dom (s : SouzaFrameTransf) a b :
  settled s a b →
  ∃ status s' out,
    update dom s = Some (status, s', out) ∧ settled s' a b ∧ same_reference s s'.
Proof.
  intros (Hn & Hl & Hlc & Hz).
  destruct (update_cases dom s a b Hn) as [[_ ->]|[_ ->]]; eexists _, _, _;
    (split; [reflexivity|]).
  - split; [|by destruct s]. unfold settled, bound. by destruct s.
  - split; [|done]. split; [done|].
    split; [by rewrite update_post_length|]. split; [done|].
    intros k Hk Hi. destruct (Hz k Hk Hi) as [Hu Hc]. split; [|done].
    apply update_post_idle; [done|lia|done].
Qed.

Lemma run_op_settled op dom (s : SouzaFrameTransf) a b :
  settled s a b →
  ∃ status s' out,
    run_op op dom s = Some (status, s', out) ∧ settled s' a b ∧ same_reference s s'.
Proof.
  intros Hs. destruct op; cbn [run_op].
  - by apply update_settled.
  - rewrite commit_run. eexists _, _, _. split; [reflexivity|].
    destruct Hs as (Hn & Hl & Hlc & Hz). split; [|by destruct s].
    split; [by destruct s|]. split; [by destruct s|]. split; [by destruct s|].
    intros k Hk Hi. destruct (Hz k Hk Hi) as [Hu _]. by destruct s.
  - destruct Hs as (Hn & Hl & Hlc & Hz).
    rewrite (revertToLastCommit_run dom s a b Hn).
    assert (Hp : settled (revertToLastCommit_prep dom s a b) a b).
    { split; [by destruct s|]. split; [by destruct s|]. split; [by destruct s|].
      intros k Hk Hi. destruct (Hz k Hk Hi) as [_ Hc]. by destruct s. }
    destruct (update_settled dom _ a b Hp) as (st & s' & out & -> & Hs' & Hr).
    eexists _, _, _. split; [reflexivity|]. split; [done|].
    revert Hr. unfold same_reference. by destruct s.
  - destruct Hs as (Hn & Hl & Hlc & Hz).
    rewrite revertToStart_run.
    assert (Hp : settled (revertToStart_prep s) a b).
    { split; [by destruct s|]. split; [by destruct s|]. split; [by destruct s|].
      intros k Hk Hi. destruct (Hz k Hk Hi) as [_ Hc].
      split; [|by destruct s].
      replace (ul (revertToStart_prep s)) with (vec_zero (D:=D) (nn * ndf)) by (by destruct s).
      by apply lookup_replicate_2. }
    destruct (update_settled dom _ a b Hp) as (st & s' & out & -> & Hs' & Hr).
    eexists _, _, _. split; [reflexivity|]. split; [done|].
    revert Hr. unfold same_reference. by destruct s.
Qed.

Lemma run_ops_settled calls (s : SouzaFrameTransf) a b :
  settled s a b →
  ∃ s', run_ops calls s = Some s' ∧ settled s' a b ∧ same_reference s s'.
Proof.
  revert s. induction calls as [|[op dom] rest IH]; intros s Hs.
  - exists s. by split.
  - destruct (run_op_settled op dom s a b Hs) as (st & s1 & out & Hrun & Hs1 & Hr1).
    destruct (IH s1 Hs1) as (s' & Hrest & Hs' & Hr').
    exists s'. cbn [run_ops]. rewrite Hrun. split; [done|]. split; [done|].
    destruct Hr1 as (? & ? & ? & ? & ?), Hr' as (? & ? & ? & ? & ?).
    unfold same_reference. split_and!; congruence.
Qed.

Lemma initialize_settles dom (s s' : SouzaFrameTransf) new_nodes out :
  initialize new_nodes dom s = Some (OK, s', out) →
  ∃ a b, new_nodes = (Some a, Some b) ∧ settled s' a b.
Proof.
  intros Hrun. destruct new_nodes as [[a|] [b|]].
  2-4: rewrite (initialize_null_run dom s) in Hrun by (cbn; auto); done.
  exists a, b. split; [done|]. rewrite initialize_bound_run in Hrun.
  destruct (L (initialize_geometry dom s a b) == d0)%D; [done|].
  destruct (Orient (dX (initialize_geometry dom s a b)) (vz s) (R0 s)) as [z m].
  cbn [fst snd] in Hrun.
  destruct (z =? 0)%Z eqn:Ez; cbn [negb] in Hrun.
  - injection Hrun as <-. split; [by destruct s|]. split; [by destruct s|]. split; [by destruct s|].
    intros k Hk _.
    replace (ul (initialize_post dom s a b)) with (vec_zero (D:=D) (nn * ndf))
      by (by destruct s).
    replace (ulcommit (initialize_post dom s a b)) with (vec_zero (D:=D) (nn * ndf))
      by (by destruct s).
    split; by apply lookup_replicate_2.
  - injection Hrun as -> _ _. done.
Qed.

End LifeCycle.

(** From a successful [initialize] on, every sequence of [update],
    [commit], [revertToLastCommit] and [revertToStart] has a result under
    any node states: no call meets a null pointer.  None of them changes the
    nodes, the reference chord, the reference length, [R0] or the up-vector;
    [ul] and [ulcommit] keep their twelve entries, and every entry but
    [jnx] and the two rotation blocks stays zero in both. *)
Theorem life_cycle_invariant {D} `{Ext : Externals D}
    (dom0 : Domain D) (s0 s : SouzaFrameTransf) (new_nodes : Arr2 NodePtr)
    (out : list string) (calls : list (Op * Domain D)) :
  initialize new_nodes dom0 s0 = Some (OK, s, out) →
  ∃ s',
    run_ops calls s = Some s' ∧ nodes s' = new_nodes ∧ same_reference s s' ∧
    length (ul s') = (nn * ndf)%nat ∧ length (ulcommit s') = (nn * ndf)%nat ∧
    (∀ k, (k < nn * ndf)%nat → idle k →
       ul s' !! k = Some d0 ∧ ulcommit s' !! k = Some d0) ∧
    ∀ dom, getInitialLength dom s' = Some (L s, s', []).
Proof.
  intros Hinit.
  destruct (initialize_settles _ _ _ _ _ Hinit) as (a & b & -> & Hs).
  destruct (run_ops_settled calls s a b Hs) as (s' & Hrun & (Hn & Hl & Hlc & Hz) & Hr).
  exists s'. split_and!; try done.
  intros dom. destruct Hr as (_ & _ & <- & _). reflexivity.
Qed.

Lemma life_cycle_invariant_witness :
  initialize (Some 0%nat, Some 1%nat) Sample.at_rest Sample.fresh
    = Some (OK, Sample.ready, []) ∧
  ∃ s',
    run_ops [(OpUpdate, Sample.moved); (OpCommit, Sample.moved);
             (OpUpdate, Sample.collapsed); (OpRevertToLastCommit, Sample.moved);
             (OpRevertToStart, Sample.at_rest)] Sample.ready = Some s' ∧
    nodes s' = (Some 0%nat, Some 1%nat) ∧ same_reference Sample.ready s' ∧
    length (ul s') = (nn * ndf)%nat ∧ length (ulcommit s') = (nn * ndf)%nat ∧
    (∀ k, (k < nn * ndf)%nat → idle k →
       ul s' !! k = Some d0 ∧ ulcommit s' !! k = Some d0) ∧
    ∀ dom, getInitialLength dom s' = Some (L Sample.ready, s', []).
Proof.
  assert (H : initialize (Some 0%nat, Some 1%nat) Sample.at_rest Sample.fresh
                = Some (OK, Sample.ready, [])) by (vm_compute; reflexivity).
  split; [exact H|].
  exact (life_cycle_invariant Sample.at_rest Sample.fresh Sample.ready _ [] _ H).
Defined.

(** With each node's block laid out as three forces then three moments,
    [getNodePosition] of an initialised object returns the zero vector for
    node 0 and the vector [(ul[jnx], 0, 0)] for node 1, whatever has been
    called since [initialize]: the entries of [ul] it reads are never
    assigned a displacement other than the axial one. *)
Theorem getNodePosition_is_axial {D} `{Ext : Externals D}
    (dom0 dom : Domain D) (s0 s s' : SouzaFrameTransf) (new_nodes : Arr2 NodePtr)
    (out : list string) (calls : list (Op * Domain D)) :
  standard_layout →
  initialize new_nodes dom0 s0 = Some (OK, s, out) →
  run_ops calls s = Some s' →
  getNodePosition 0 dom s' = Some (v3_zero, s', []) ∧
  getNodePosition 1 dom s' = Some (V3 (ul s' !!! jnx) d0 d0, s', []).
Proof.
  intros (Hi & Him & Hj & Hjm) Hinit Hrun.
  destruct (initialize_settles _ _ _ _ _ Hinit) as (a & b & -> & Hs).
  destruct (run_ops_settled calls s a b Hs) as (s'' & Hrun' & (Hn & Hl & Hlc & Hz) & Hr).
  rewrite Hrun in Hrun'. injection Hrun' as <-.
  assert (Hidle : ∀ k, k ∈ [0; 1; 2; 7; 8]%nat → ul s' !!! k = d0).
  { intros k Hk. apply list_lookup_total_correct.
    rewrite !elem_of_cons, elem_of_nil in Hk.
    apply Hz; [unfold nn, ndf; lia|].
    unfold idle. rewrite Him, Hj, Hjm, !not_elem_of_cons.
    split_and!; first [lia | apply not_elem_of_nil]. }
  unfold getNodePosition, mbind, M_bind, mret, M_ret, get_this. cbn -[lookup_total].
  rewrite Hj.
  rewrite (Hidle 0%nat), (Hidle 1%nat), (Hidle 2%nat), (Hidle 7%nat), (Hidle 8%nat)
    by (rewrite !elem_of_cons; tauto).
  done.
Qed.

Lemma getNodePosition_is_axial_witness :
  standard_layout (Ext := Sample.on_binary64) ∧
  initialize (Some 0%nat, Some 1%nat) Sample.at_rest Sample.fresh
    = Some (OK, Sample.ready, []) ∧
  run_ops [(OpUpdate, Sample.moved)] Sample.ready = Some Sample.updated ∧
  getNodePosition 0 Sample.moved Sample.updated = Some (v3_zero, Sample.updated, []) ∧
  getNodePosition 1 Sample.moved Sample.updated
    = Some (V3 (ul Sample.updated !!! jnx) d0 d0, Sample.updated, []).
Proof.
  assert (H1 : standard_layout (Ext := Sample.on_binary64)) by (vm_compute; done).
  assert (H2 : initialize (Some 0%nat, Some 1%nat) Sample.at_rest Sample.fresh
                = Some (OK, Sample.ready, [])) by (vm_compute; reflexivity).
  assert (H3 : run_ops [(OpUpdate, Sample.moved)] Sample.ready = Some Sample.updated)
    by (vm_compute; reflexivity).
  split; [exact H1|]. split; [exact H2|]. split; [exact H3|].
  exact (getNodePosition_is_axial Sample.at_rest Sample.moved Sample.fresh Sample.ready
           Sample.updated _ [] _ H1 H2 H3).
Defined.

(** [getLocalAxes] overwrites all three arguments with the columns of [R0]
    and returns [0]; for an initialised object these are the columns of the
    triad [initialize] stored, whatever has been called since: the axes it
    reports do not follow the element. *)
Theorem getLocalAxes_returns_reference_triad {D} `{Ext : Externals D}
    (dom0 dom : Domain D) (s0 s s' : SouzaFrameTransf) (new_nodes : Arr2 NodePtr)
    (out : list string) (calls : list (Op * Domain D)) (e1 e2 e3 : Vector3D D) :
  initialize new_nodes dom0 s0 = Some (OK, s, out) →
  run_ops calls s = Some s' →
  getLocalAxes e1 e2 e3 dom s' =
    Some ((0%Z, (m3_col (R0 s) 0, m3_col (R0 s) 1, m3_col (R0 s) 2)), s', []).
Proof.
  intros Hinit Hrun.
  destruct (initialize_settles _ _ _ _ _ Hinit) as (a & b & -> & Hs).
  destruct (run_ops_settled calls s a b Hs) as (s'' & Hrun' & _ & (_ & _ & _ & HR & _)).
  rewrite Hrun in Hrun'. injection Hrun' as <-.
  unfold getLocalAxes, mbind, M_bind, mret, M_ret, get_this. rewrite HR.
  destruct e1, e2, e3. reflexivity.
Qed.

Lemma getLocalAxes_returns_reference_triad_witness :
  initialize (Some 0%nat, Some 1%nat) Sample.at_rest Sample.fresh
    = Some (OK, Sample.ready, []) ∧
  run_ops [(OpUpdate, Sample.moved)] Sample.ready = Some Sample.updated ∧
  getLocalAxes v3_zero v3_zero v3_zero Sample.moved Sample.updated =
    Some ((0%Z, (m3_col (R0 Sample.ready) 0, m3_col (R0 Sample.ready) 1,
                 m3_col (R0 Sample.ready) 2)), Sample.updated, []).
Proof.
  assert (H2 : initialize (Some 0%nat, Some 1%nat) Sample.at_rest Sample.fresh
                = Some (OK, Sample.ready, [])) by (vm_compute; reflexivity).
  assert (H3 : run_ops [(OpUpdate, Sample.moved)] Sample.ready = Some Sample.updated)
    by (vm_compute; reflexivity).
  split; [exact H2|]. split; [exact H3|].
  exact (getLocalAxes_returns_reference_triad Sample.at_rest Sample.moved Sample.fresh
           Sample.ready Sample.updated _ [] _ v3_zero v3_zero v3_zero H2 H3).
Defined.

(** ** The accessors after an update, and commit *)

(** After a successful [update], with each node's block laid out as three
    forces then three moments, the first component of [getNodePosition(1)]
    is [getDeformedLength()] minus [getInitialLength()]. *)
Theorem getNodePosition_axial_stretch {D} `{Ext : Externals D}
    (dom : Domain D) (s s' : SouzaFrameTransf) (out : list string) :
  standard_layout →
  length (ul s) = (nn * ndf)%nat →
  update dom s = Some (OK, s', out) →
  ∃ p l ln,
    getNodePosition 1 dom s' = Some (p, s', []) ∧
    getInitialLength dom s' = Some (l, s', []) ∧
    getDeformedLength dom s' = Some (ln, s', []) ∧
    v0 p = (ln - l)%D ∧ l = L s.
Proof.
  intros (Hi & Him & Hj & Hjm) Hlen Hrun.
  destruct (update_outcome dom s OK s' out Hrun)
    as (a & b & Hn & [(Hz & ? & -> & ->)|(Hz & _ & -> & ->)]); [done|].
  eexists _, _, _. split; [reflexivity|]. split; [reflexivity|]. split; [reflexivity|].
  split; [|reflexivity].
  cbn -[lookup_total update_post]. cbn [ul Ln L update_post]. rewrite Hj.
  apply list_lookup_total_insert_eq.
  rewrite length_insert, !write3_length, Hlen. unfold nn, ndf. lia.
Qed.

Lemma getNodePosition_axial_stretch_witness :
  standard_layout (Ext := Sample.on_binary64) ∧
  length (ul Sample.ready) = (nn * ndf)%nat ∧
  update Sample.moved Sample.ready = Some (OK, Sample.updated, []) ∧
  ∃ p l ln,
    getNodePosition 1 Sample.moved Sample.updated = Some (p, Sample.updated, []) ∧
    getInitialLength Sample.moved Sample.updated = Some (l, Sample.updated, []) ∧
    getDeformedLength Sample.moved Sample.updated = Some (ln, Sample.updated, []) ∧
    v0 p = (ln - l)%D ∧ l = L Sample.ready.
Proof.
  assert (H0 : standard_layout (Ext := Sample.on_binary64)) by (vm_compute; done).
  assert (Hl : length (ul Sample.ready) = (nn * ndf)%nat) by (vm_compute; reflexivity).
  assert (H1 : update Sample.moved Sample.ready = Some (OK, Sample.updated, []))
    by (vm_compute; reflexivity).
  split; [exact H0|]. split; [exact Hl|]. split; [exact H1|].
  exact (getNodePosition_axial_stretch Sample.moved Sample.ready Sample.updated [] H0 Hl H1).
Defined.

(** On the moved nodes: the reported position of node J is the stretch
    0.25 along the chord. *)
Example getNodePosition_moved :
  Sample.outcome (getNodePosition 1 Sample.moved Sample.updated)
    = Some (V3 0.25%float 0%float 0%float, []) ∧
  Sample.outcome (getNodePosition 0 Sample.moved Sample.updated)
    = Some (V3 0%float 0%float 0%float, []).
Proof. split; vm_compute; reflexivity. Qed.

(** [commit] returns [0], writes no diagnostic and leaves the committed
    state equal to the trial state ([Q_past = Q_pres], [ulcommit = ul]); it
    changes no other member, and a second [commit], under any node state,
    changes nothing. *)
Theorem commit_is_idempotent {D} `{Ext : Externals D}
    (dom dom' : Domain D) (s : SouzaFrameTransf) :
  ∃ s1,
    commit dom s = Some (0%Z, s1, []) ∧
    Q_past s1 = Q_pres s ∧ ulcommit s1 = ul s ∧
    s1 = set_Q_past (Q_past s1) (set_ulcommit (ulcommit s1) s) ∧
    commit dom' s1 = Some (0%Z, s1, []).
Proof.
  rewrite commit_run. eexists. split; [reflexivity|].
  rewrite commit_run. unfold commit_post.
  destruct s. repeat match goal with q : Arr2 Versor |- _ => destruct q end.
  split_and!; reflexivity.
Qed.

(** ** addTangent *)

Section TangentFacts.
Context {D : Type} `{Ext : Externals D} `{!TangentExternals D}.

Lemma shape_row n m (kg : MatrixND D) i :
  shape n m kg → (i < n)%nat → length (kg !!! i) = m.
Proof.
  intros [Hl Hr] Hi. rewrite Forall_forall in Hr. apply Hr.
  apply list_elem_of_lookup_total_2. lia.
Qed.

Lemma mat_add_at_shape n m i j x (kg : MatrixND D) :
  shape n m kg → shape n m (mat_add_at i j x kg).
Proof.
  intros [Hl Hr]. unfold mat_add_at. split; [by rewrite length_insert|].
  destruct (decide (i < length kg)%nat) as [Hi|Hi].
  - apply Forall_insert; [done|]. rewrite length_insert.
    apply (shape_row n m); [done|lia].
  - rewrite list_insert_ge by lia. done.
Qed.

Lemma mat_add_at_at n m i j x (kg : MatrixND D) i' j' :
  shape n m kg → (i < n)%nat → (j < m)%nat →
  mat_at (mat_add_at i j x kg) i' j' =
    if decide (i = i' ∧ j = j') then (mat_at kg i j + x)%D else mat_at kg i' j'.
Proof.
  intros Hs Hi Hj. destruct Hs as [Hl Hr]. unfold mat_add_at, mat_at.
  destruct (decide (i = i')) as [<-|Hne].
  - rewrite list_lookup_total_insert_eq by lia.
    destruct (decide (j = j')) as [<-|Hnj].
    + rewrite decide_True by done.
      rewrite list_lookup_total_insert_eq; [done|].
      rewrite (shape_row n m); [done|done|lia].
    + rewrite decide_False by tauto.
      by rewrite list_lookup_total_insert_ne.
  - rewrite decide_False by tauto.
    by rewrite list_lookup_total_insert_ne.
Qed.

(** One row of one pass: the inner loop over [j]. *)
Lemma pass_row n m (f : nat → D) i (js : list nat) (kg : MatrixND D) :
  shape n m kg → (i < n)%nat → NoDup js → Forall (λ j, (j < m)%nat) js →
  let kg' := foldl (λ kg j, mat_add_at i j (f j) kg) kg js in
  shape n m kg' ∧
  ∀ i' j', mat_at kg' i' j' =
    if decide (i = i' ∧ j' ∈ js) then (mat_at kg i' j' + f j')%D else mat_at kg i' j'.
Proof.
  intros Hs Hi Hnd Hlt. revert kg Hs. induction js as [|j js IH]; intros kg Hs; cbn.
  - split; [done|]. intros i' j'. rewrite decide_False; [done|].
    intros [_ Hin]. by apply elem_of_nil in Hin.
  - apply NoDup_cons in Hnd as [Hj Hnd]. apply Forall_cons in Hlt as [Hjm Hlt].
    destruct (IH Hnd Hlt (mat_add_at i j (f j) kg)) as [Hs' Hat];
      [by apply mat_add_at_shape|].
    split; [done|]. intros i' j'. rewrite Hat.
    rewrite (mat_add_at_at n m) by done.
    destruct (decide (i = i' ∧ j = j')) as [[<- <-]|Hn1].
    + rewrite decide_False by tauto.
      rewrite decide_True; [done|]. split; [done|]. apply list_elem_of_here.
    + destruct (decide (i = i' ∧ j' ∈ js)) as [[<- Hin]|Hn2].
      * rewrite decide_True; [done|]. split; [done|]. by apply list_elem_of_further.
      * rewrite decide_False; [done|]. rewrite elem_of_cons. intros [<- [->|?]]; tauto.
Qed.

(** One pass: the loops over [i] and [j] add [f i j] to every entry. *)
Lemma pass_all n m (f : nat → nat → D) (idx js : list nat) (kg : MatrixND D) :
  shape n m kg → NoDup idx → Forall (λ i, (i < n)%nat) idx →
  NoDup js → Forall (λ j, (j < m)%nat) js →
  let kg' := foldl (λ kg i, foldl (λ kg j, mat_add_at i j (f i j) kg) kg js) kg idx in
  shape n m kg' ∧
  ∀ i' j', mat_at kg' i' j' =
    if decide (i' ∈ idx ∧ j' ∈ js) then (mat_at kg i' j' + f i' j')%D else mat_at kg i' j'.
Proof.
  intros Hs Hnd Hlt Hndj Hltj. revert kg Hs.
  induction idx as [|i idx IH]; intros kg Hs; cbn.
  - split; [done|]. intros i' j'. rewrite decide_False; [done|].
    intros [Hin _]. by apply elem_of_nil in Hin.
  - apply NoDup_cons in Hnd as [Hi Hnd]. apply Forall_cons in Hlt as [Him Hlt].
    destruct (pass_row n m (f i) i js kg Hs Him Hndj Hltj) as [Hs1 Hat1].
    destruct (IH Hnd Hlt _ Hs1) as [Hs' Hat].
    split; [done|]. intros i' j'. rewrite Hat, !Hat1.
    destruct (decide (i = i' ∧ j' ∈ js)) as [[<- Hin]|Hn1].
    + rewrite decide_False by tauto.
      rewrite decide_True; [done|]. split; [apply list_elem_of_here|done].
    + destruct (decide (i' ∈ idx ∧ j' ∈ js)) as [[Hin Hinj]|Hn2].
      * rewrite decide_True; [done|]. split; [by apply list_elem_of_further|done].
      * rewrite decide_False; [done|]. rewrite elem_of_cons. intros [[->|?] ?]; tauto.
Qed.

Lemma pass_12 (f : nat → nat → D) (kg : MatrixND D) :
  shape 12 12 kg →
  let kg' := foldl (λ kg i, foldl (λ kg j, mat_add_at i j (f i j) kg) kg (seq 0 12))
                   kg (seq 0 12) in
  shape 12 12 kg' ∧
  ∀ i j, (i < 12)%nat → (j < 12)%nat → mat_at kg' i j = (mat_at kg i j + f i j)%D.
Proof.
  intros Hs.
  destruct (pass_all 12 12 f (seq 0 12) (seq 0 12) kg Hs) as [Hs' Hat].
  1,3: apply NoDup_seq.
  1,2: apply Forall_forall; intros k Hk; apply elem_of_seq in Hk; lia.
  split; [done|]. intros i j Hi Hj. rewrite Hat.
  rewrite decide_True; [done|]. rewrite !elem_of_seq. lia.
Qed.

End TangentFacts.

Section TangentRun.
Context {D : Type} `{Ext : Externals D} `{!TangentExternals D}.

Lemma addTangent_passes dom (s : SouzaFrameTransf) (kg : MatrixND D) (pl ul' : VectorND D) :
  let r := crs_addTangent (crs s) kg pl ul' in
  addTangent kg pl ul' dom s =
    Some ((0%Z, foldl (λ kg r, moment_pass s pl ul' r kg) (snd r) moment_rows),
          set_crs (fst r) s, []).
Proof.
  cbv zeta. unfold addTangent, mbind, M_bind, mret, M_ret, get_this, assign.
  destruct (crs_addTangent (crs s) kg pl ul') as [c k0]. cbn [fst snd].
  replace (T (set_crs c s)) with (T s) by (by destruct s).
  unfold moment_pass, moment_term, moment_rows.
  generalize (seq 0 12). intros idx.
  generalize (T s). intros A.
  cbn [seq foldl]. reflexivity.
Qed.

Lemma moment_passes_at (s : SouzaFrameTransf) (pl ul' : VectorND D) (rows : list nat)
    (k0 : MatrixND D) :
  shape 12 12 k0 →
  let kg' := foldl (λ kg r, moment_pass s pl ul' r kg) k0 rows in
  shape 12 12 kg' ∧
  ∀ i j, (i < 12)%nat → (j < 12)%nat →
    mat_at kg' i j = foldl (λ acc r, (acc + moment_term s pl ul' r i j)%D) (mat_at k0 i j) rows.
Proof.
  revert k0. induction rows as [|r rows IH]; intros k0 Hs; cbn [foldl]; [done|].
  destruct (pass_12 (moment_term s pl ul' r) k0 Hs) as [Hs1 Hat1].
  destruct (IH (moment_pass s pl ul' r k0) Hs1) as [Hs' Hat]. split; [done|].
  intros i j Hi Hj. rewrite (Hat i j Hi Hj). unfold moment_pass.
  by rewrite (Hat1 i j Hi Hj).
Qed.

(** [addTangent] as a whole: the isometry's call, then six passes. *)
Lemma addTangent_run dom (s : SouzaFrameTransf) (kg : MatrixND D) (pl ul' : VectorND D) :
  let r := crs_addTangent (crs s) kg pl ul' in
  shape 12 12 (snd r) →
  ∃ kg',
    addTangent kg pl ul' dom s = Some ((0%Z, kg'), set_crs (fst r) s, []) ∧
    shape 12 12 kg' ∧
    ∀ i j, (i < 12)%nat → (j < 12)%nat →
      mat_at kg' i j = with_moment_terms s pl ul' i j (mat_at (snd r) i j).
Proof.
  cbv zeta. intros Hs. rewrite addTangent_passes. cbv zeta.
  eexists. split; [reflexivity|]. by apply moment_passes_at.
Qed.

(** In exact arithmetic the term a row adds is symmetric. *)
Lemma moment_term_sym `{!ProductLaws D} (s : SouzaFrameTransf) (pl ul' : VectorND D) r i j :
  moment_term s pl ul' r i j = moment_term s pl ul' r j i.
Proof.
  unfold moment_term.
  generalize (mat_at (T s) r i), (mat_at (T s) r j), (pl !!! r * tan (ul' !!! r))%D.
  intros a b f.
  by rewrite (dmul_comm (a * f)%D b), (dmul_comm a f), dmul_assoc.
Qed.

Lemma with_moment_terms_sym `{!ProductLaws D} (s : SouzaFrameTransf) (pl ul' : VectorND D)
    i j x y :
  x = y → with_moment_terms s pl ul' i j x = with_moment_terms s pl ul' j i y.
Proof.
  intros <-. unfold with_moment_terms. generalize moment_rows. intros rows. revert x.
  induction rows as [|r rows IH]; intros x; cbn [foldl]; [done|].
  by rewrite (moment_term_sym s pl ul' r i j).
Qed.

Lemma with_moment_terms_zero `{!ProductLaws D} (s : SouzaFrameTransf) (pl ul' : VectorND D)
    i j x :
  (∀ r, r ∈ moment_rows → pl !! r = Some d0) → with_moment_terms s pl ul' i j x = x.
Proof.
  unfold with_moment_terms. generalize moment_rows. intros rows Hz. revert x.
  induction rows as [|r rows IH]; intros x; cbn [foldl]; [done|].
  rewrite IH by (intros; apply Hz; by apply list_elem_of_further).
  unfold moment_term.
  rewrite (list_lookup_total_correct pl r d0) by apply Hz, list_elem_of_here.
  by rewrite dmul_0_l, (dmul_comm _ d0), !dmul_0_l, dadd_0_r.
Qed.

End TangentRun.

(** [addTangent] returns [0] and writes no diagnostic; of the object it
    changes at most the isometry, by the isometry's own [addTangent].  To
    every entry [(i,j)] of the 12 x 12 matrix the isometry leaves it adds,
    one after the other, the terms [T(r,i) * (pl[r] * tan(ul[r])) * T(r,j)]
    of the six rows [r = imx, imx+1, imx+2, jmx, jmx+1, jmx+2]: it reads
    [pl] and its argument [ul] at these six entries only, and never the
    member [ul]. *)
Theorem addTangent_entries {D} `{Ext : Externals D} `{!TangentExternals D}
    (dom : Domain D) (s : SouzaFrameTransf) (kg : MatrixND D) (pl ul' : VectorND D) :
  shape 12 12 (snd (crs_addTangent (crs s) kg pl ul')) →
  ∃ kg',
    addTangent kg pl ul' dom s
      = Some ((0%Z, kg'), set_crs (fst (crs_addTangent (crs s) kg pl ul')) s, []) ∧
    shape 12 12 kg' ∧
    ∀ i j, (i < 12)%nat → (j < 12)%nat →
      mat_at kg' i j =
        with_moment_terms s pl ul' i j (mat_at (snd (crs_addTangent (crs s) kg pl ul')) i j).
Proof. intros Hs. by apply addTangent_run. Qed.

Lemma addTangent_entries_witness :
  shape 12 12 (snd (crs_addTangent (crs Sample.withTz) Sample.Tz Sample.plz Sample.plz)) ∧
  ∃ kg',
    addTangent Sample.Tz Sample.plz Sample.plz Sample.at_rest_Z Sample.withTz
      = Some ((0%Z, kg'),
              set_crs (fst (crs_addTangent (crs Sample.withTz) Sample.Tz Sample.plz Sample.plz))
                      Sample.withTz, []) ∧
    shape 12 12 kg' ∧
    ∀ i j, (i < 12)%nat → (j < 12)%nat →
      mat_at kg' i j =
        with_moment_terms Sample.withTz Sample.plz Sample.plz i j
          (mat_at (snd (crs_addTangent (crs Sample.withTz) Sample.Tz Sample.plz Sample.plz)) i j).
Proof.
  assert (Hs : shape 12 12
                 (snd (crs_addTangent (crs Sample.withTz) Sample.Tz Sample.plz Sample.plz))).
  { split; [reflexivity|]. repeat constructor. }
  split; [exact Hs|].
  exact (addTangent_entries Sample.at_rest_Z Sample.withTz Sample.Tz Sample.plz Sample.plz Hs).
Defined.

(** With [T(r,c) = 12 r + c], [pl(k) = ul(k) = k - 5] and the zero matrix,
    entry [(i,j)] of the result is the sum of
    [(12 r + i) (r - 5)^2 (12 r + j)] over the rows 3, 4, 5, 9, 10, 11. *)
Example addTangent_on_integers :
  Sample.outcome (addTangent TangentSample.zero12 Sample.plz Sample.plz
                    Sample.at_rest_Z Sample.withTz) =
    Some ((0%Z,
           (λ i, (λ j,
              foldr Z.add 0%Z
                ((λ r, (12 * r + Z.of_nat i) * ((r - 5) * (r - 5)) * (12 * r + Z.of_nat j))
                   <$> [3; 4; 5; 9; 10; 11]))%Z <$> seq 0 12) <$> seq 0 12), []).
Proof. vm_compute. reflexivity. Qed.

(** In exact arithmetic [addTangent] keeps the matrix symmetric: when the
    matrix the isometry leaves is symmetric, so is the result. *)
Theorem addTangent_keeps_symmetry {D} `{Ext : Externals D} `{!TangentExternals D}
    `{!ProductLaws D}
    (dom : Domain D) (s : SouzaFrameTransf) (kg : MatrixND D) (pl ul' : VectorND D) :
  shape 12 12 (snd (crs_addTangent (crs s) kg pl ul')) →
  symmetric (snd (crs_addTangent (crs s) kg pl ul')) →
  ∃ kg' s', addTangent kg pl ul' dom s = Some ((0%Z, kg'), s', []) ∧ symmetric kg'.
Proof.
  intros Hs Hsym.
  destruct (addTangent_run dom s kg pl ul' Hs) as (kg' & Hrun & _ & Hat).
  eexists kg', _. split; [exact Hrun|].
  intros i j Hi Hj. rewrite (Hat i j), (Hat j i) by done.
  apply with_moment_terms_sym. by apply Hsym.
Qed.

Lemma addTangent_keeps_symmetry_witness :
  shape 12 12 (snd (crs_addTangent (crs Sample.withTz) TangentSample.zero12
                      Sample.plz Sample.plz)) ∧
  symmetric (snd (crs_addTangent (crs Sample.withTz) TangentSample.zero12
                    Sample.plz Sample.plz)) ∧
  ∃ kg' s',
    addTangent TangentSample.zero12 Sample.plz Sample.plz Sample.at_rest_Z Sample.withTz
      = Some ((0%Z, kg'), s', []) ∧
    symmetric kg'.
Proof.
  assert (Hs : shape 12 12 (snd (crs_addTangent (crs Sample.withTz) TangentSample.zero12
                                  Sample.plz Sample.plz))).
  { split; [reflexivity|]. repeat constructor. }
  assert (Hy : symmetric (snd (crs_addTangent (crs Sample.withTz) TangentSample.zero12
                                Sample.plz Sample.plz))).
  { intros i j Hi Hj. change (mat_at TangentSample.zero12 i j = mat_at TangentSample.zero12 j i).
    unfold mat_at, TangentSample.zero12.
    by rewrite (lookup_total_replicate_2 _ _ i), (lookup_total_replicate_2 _ _ j),
      !lookup_total_replicate_2. }
  split; [exact Hs|]. split; [exact Hy|].
  exact (addTangent_keeps_symmetry Sample.at_rest_Z Sample.withTz TangentSample.zero12
           Sample.plz Sample.plz Hs Hy).
Defined.

(** In exact arithmetic, when [pl] is zero at the six rotational entries
    (no end moments), [addTangent] adds nothing to what the isometry
    leaves. *)
Theorem addTangent_without_moments {D} `{Ext : Externals D} `{!TangentExternals D}
    `{!ProductLaws D}
    (dom : Domain D) (s : SouzaFrameTransf) (kg : MatrixND D) (pl ul' : VectorND D) :
  shape 12 12 (snd (crs_addTangent (crs s) kg pl ul')) →
  (∀ r, r ∈ moment_rows → pl !! r = Some d0) →
  ∃ kg' s',
    addTangent kg pl ul' dom s = Some ((0%Z, kg'), s', []) ∧
    ∀ i j, (i < 12)%nat → (j < 12)%nat →
      mat_at kg' i j = mat_at (snd (crs_addTangent (crs s) kg pl ul')) i j.
Proof.
  intros Hs Hz.
  destruct (addTangent_run dom s kg pl ul' Hs) as (kg' & Hrun & _ & Hat).
  eexists kg', _. split; [exact Hrun|].
  intros i j Hi Hj. rewrite (Hat i j) by done. by apply with_moment_terms_zero.
Qed.

Lemma addTangent_without_moments_witness :
  shape 12 12 (snd (crs_addTangent (crs Sample.withTz) Sample.Tz (vec_zero 12) Sample.plz)) ∧
  (∀ r, r ∈ moment_rows (Ext := Sample.on_Z) → vec_zero (D:=Z) 12 !! r = Some d0) ∧
  ∃ kg' s',
    addTangent Sample.Tz (vec_zero 12) Sample.plz Sample.at_rest_Z Sample.withTz
      = Some ((0%Z, kg'), s', []) ∧
    ∀ i j, (i < 12)%nat → (j < 12)%nat →
      mat_at kg' i j =
        mat_at (snd (crs_addTangent (crs Sample.withTz) Sample.Tz (vec_zero 12) Sample.plz)) i j.
Proof.
  assert (Hs : shape 12 12
                 (snd (crs_addTangent (crs Sample.withTz) Sample.Tz (vec_zero 12) Sample.plz))).
  { split; [reflexivity|]. repeat constructor. }
  assert (Hz : ∀ r, r ∈ moment_rows (Ext := Sample.on_Z) → vec_zero (D:=Z) 12 !! r = Some d0).
  { intros r Hr. unfold moment_rows in Hr. rewrite !elem_of_cons, elem_of_nil in Hr.
    destruct Hr as [->|[->|[->|[->|[->|[->|[]]]]]]]; reflexivity. }
  split; [exact Hs|]. split; [exact Hz|].
  exact (addTangent_without_moments Sample.at_rest_Z Sample.withTz Sample.Tz (vec_zero 12)
           Sample.plz Hs Hz).
Defined.
